(** * BLS signature wrappers of [main.go], verified against their collaborators

    [main.go] is a thin layer over two external packages: go-ethereum's
    [hexutil] (the [0x]-prefixed hex codec) and Prysm's [crypto/bls] (keys,
    signatures and pairing checks on BLS12-381).  The five exported functions
    of [main.go] are embedded below, statement by statement, over an
    interface of those two packages (type classes [Hexutil] and [BLS]).

    What a theorem needs of the packages is a hypothesis of its section, and
    module [Ref] implements the interface in the exponent representation of
    the pairing groups, so that each such hypothesis is shown to hold of an
    implementation and the wrappers can be run on concrete inputs. *)

From Stdlib Require Import ZArith List Bool Lia Permutation Eqdep_dec.
From Stdlib.Strings Require Import String Ascii Byte.
From Stdlib Require Import DecimalString.
Import ListNotations.

Local Open Scope string_scope.
Local Open Scope list_scope.

(** ** Go values *)

(** A byte slice. *)
Definition bytes : Type := list byte.

(** [[]byte(s)]: a Go string is its bytes. *)
Definition bytes_of (s : string) : bytes := list_byte_of_string s.

(** Go's built-in [copy(dst, src)]: the first [min (len dst) (len src)]
    elements of [dst] are overwritten with those of [src]; the result is
    [dst] after the call. *)
Definition copy (dst src : bytes) : bytes :=
  firstn (List.length dst) src ++ skipn (List.length src) dst.

(** [var msgBytes [32]byte]: the zero value of the array type. *)
Definition zero32 : bytes := repeat x00 32.

(** A Go [error] of [main.go].  An error of a collaborator is kept as its
    message (all [main.go] does with one is to format it with [%v] or to hand
    it on); the sentinel of [main.go] and the errors it builds itself are
    apart from those. *)
Inductive error : Type :=
| ErrInvalidMsgLength
| Errorf (format : string) (cause : string)
| Foreign (cause : string).

(** A call either returns or panics at run time. *)
Inductive outcome (A : Type) : Type :=
| Returns (a : A)
| Panics (why : string).
Arguments Returns {A} a.
Arguments Panics {A} why.

(** ** The collaborators *)

(** [github.com/ethereum/go-ethereum/common/hexutil]. [Decode] gives the
    bytes ([inl]) or an error message ([inr]). *)
Class Hexutil : Type := {
  hexutil_Decode : string -> bytes + string;
  hexutil_Encode : bytes -> string
}.

(** [github.com/prysmaticlabs/prysm/v5/crypto/bls] and the interfaces
    [common.SecretKey], [common.PublicKey], [common.Signature].  [Entropy] is
    the state of the process-wide random source that [RandKey] and
    [VerifyMultipleSignatures] read.  [AggregateSignatures] returns an
    interface value, which may be nil ([None]).  The functions and methods
    are total: a failure of theirs is an error value, not a panic. *)
Class BLS : Type := {
  Entropy : Type;
  SecretKey : Type;
  PublicKey : Type;
  Signature : Type;
  bls_RandKey : Entropy -> SecretKey + string;
  bls_SecretKeyFromBytes : bytes -> SecretKey + string;
  bls_PublicKeyFromBytes : bytes -> PublicKey + string;
  bls_SignatureFromBytes : bytes -> Signature + string;
  sk_PublicKey : SecretKey -> PublicKey;
  sk_Sign : SecretKey -> bytes -> Signature;
  sk_Marshal : SecretKey -> bytes;
  pk_Marshal : PublicKey -> bytes;
  sig_Marshal : Signature -> bytes;
  sig_Verify : Signature -> PublicKey -> bytes -> bool;
  bls_AggregateSignatures : list Signature -> option Signature;
  bls_VerifySignature : bytes -> bytes -> PublicKey -> bool * option string;
  bls_VerifyMultipleSignatures :
    Entropy -> list bytes -> list bytes -> list PublicKey -> bool * option string
}.

(** [return bls.F(...)]: the collaborator's pair is returned as it is. *)
Definition foreign (r : bool * option string) : bool * option error :=
  (fst r, option_map Foreign (snd r)).

(** ** The functions of [main.go] *)

Section Wrappers.
Context {HX : Hexutil} {B : BLS}.

(** [main.go] lines 17-24. *)
Definition GenerateKeyPair (rnd : Entropy) : string * string * option error :=
  match bls_RandKey rnd with
  | inr err => ("", "", Some (Errorf "failed to generate key pair: %v" err))
  | inl sk =>
      (hexutil_Encode (sk_Marshal sk),
       hexutil_Encode (pk_Marshal (sk_PublicKey sk)),
       None)
  end.

(** [main.go] lines 27-41. *)
Definition GenerateSignature (privKeyHex msg : string) : string * option error :=
  match hexutil_Decode privKeyHex with
  | inr err => ("", Some (Errorf "failed to decode secret key hex to bytes: %v" err))
  | inl skBytes =>
      match bls_SecretKeyFromBytes skBytes with
      | inr err =>
          ("", Some (Errorf "failed to convert secret key hex to common.SecretKey: %v" err))
      | inl sk =>
          let msgBytes := copy zero32 (bytes_of msg) in
          let sig := sk_Sign sk msgBytes in
          (hexutil_Encode (sig_Marshal sig), None)
      end
  end.

(** The loop of [AggregateSignatures], lines 47-58: [sigs] is the slice built
    so far; an error leaves the function at once. *)
Fixpoint AggregateSignatures_loop (sigHexes : list string) (sigs : list Signature)
  : list Signature + error :=
  match sigHexes with
  | [] => inl sigs
  | sigHex :: rest =>
      match hexutil_Decode sigHex with
      | inr err => inr (Errorf "failed to decode signature hex to bytes: %v" err)
      | inl sigBytes =>
          match bls_SignatureFromBytes sigBytes with
          | inr err =>
              inr (Errorf "failed to convert signature bytes to common.Signature: %v" err)
          | inl sig => AggregateSignatures_loop rest (sigs ++ [sig])
          end
      end
  end.

(** [main.go] lines 44-62.  [aggSig.Marshal()] on a nil interface value is a
    run-time panic. *)
Definition AggregateSignatures (sigHexes : list string) : outcome (string * option error) :=
  match AggregateSignatures_loop sigHexes [] with
  | inr e => Returns ("", Some e)
  | inl sigs =>
      match bls_AggregateSignatures sigs with
      | None => Panics "invalid memory address or nil pointer dereference"
      | Some aggSig => Returns (hexutil_Encode (sig_Marshal aggSig), None)
      end
  end.

(** [main.go] lines 65-88. *)
Definition VerifySignature (pubKeyHex sigHex msg : string) : bool * option error :=
  if (32 <? List.length (bytes_of msg))%nat then (false, Some ErrInvalidMsgLength)
  else
    match hexutil_Decode sigHex with
    | inr err => (false, Some (Errorf "failed to decode signature hex to bytes: %v" err))
    | inl sigBytes =>
        match hexutil_Decode pubKeyHex with
        | inr err => (false, Some (Errorf "failed to decode public key hex to bytes: %v" err))
        | inl pubKeyBytes =>
            match bls_PublicKeyFromBytes pubKeyBytes with
            | inr err =>
                (false,
                 Some (Errorf "failed to convert public key bytes to common.PublicKey: %v" err))
            | inl pubKey =>
                let msgBytes := copy zero32 (bytes_of msg) in
                foreign (bls_VerifySignature sigBytes msgBytes pubKey)
            end
        end
    end.

(** The three slices the first loop of [VerifyAggregateSignature] fills. *)
Record agg_state : Type := mkAggState {
  xMsgs : list bytes;
  xPKs : list PublicKey;
  sigs : list Signature
}.

(** The first loop of [VerifyAggregateSignature], lines 100-126. *)
Fixpoint VerifyAggregateSignature_loop (aggregateSigHex msg : string)
    (pubKeyHexes : list string) (st : agg_state) : agg_state + error :=
  match pubKeyHexes with
  | [] => inl st
  | pubKeyHex :: rest =>
      let msgBytes := copy zero32 (bytes_of msg) in
      let xMsgs' := xMsgs st ++ [msgBytes] in
      match hexutil_Decode pubKeyHex with
      | inr err => inr (Errorf "failed to decode public key hex to bytes: %v" err)
      | inl pubKeyBytes =>
          match bls_PublicKeyFromBytes pubKeyBytes with
          | inr err =>
              inr (Errorf "failed to convert public key bytes to common.PublicKey: %v" err)
          | inl pubKey =>
              let xPKs' := xPKs st ++ [pubKey] in
              match hexutil_Decode aggregateSigHex with
              | inr err => inr (Errorf "failed to decode signature hex to bytes: %v" err)
              | inl sigBytes =>
                  match bls_SignatureFromBytes sigBytes with
                  | inr err =>
                      inr (Errorf
                             "failed to convert signature bytes to common.Signature: %v" err)
                  | inl sig =>
                      VerifyAggregateSignature_loop aggregateSigHex msg rest
                        (mkAggState xMsgs' xPKs' (sigs st ++ [sig]))
                  end
              end
          end
      end
  end.

(** [main.go] lines 90-133; the second loop (lines 128-130) is the [map]. *)
Definition VerifyAggregateSignature (rnd : Entropy) (aggregateSigHex msg : string)
    (pubKeyHexes : list string) : bool * option error :=
  match VerifyAggregateSignature_loop aggregateSigHex msg pubKeyHexes
          (mkAggState [] [] []) with
  | inr e => (false, Some e)
  | inl st =>
      let xSigsBytes := map sig_Marshal (sigs st) in
      foreign (bls_VerifyMultipleSignatures rnd xSigsBytes (xMsgs st) (xPKs st))
  end.

End Wrappers.

(** ** The two programs *)

(** An operand of [fmt.Println]. *)
Inductive value : Type :=
| VString (s : string)
| VBool (b : bool)
| VError (e : error)
| VArray (a : bytes).

(** One call of [fmt.Println]: its operands, in order. *)
Definition line : Type := list value.

(** What a program printed, and the panic that ended it, if one did. *)
Definition run : Type := (list line * option string)%type.

(** [fmt.Sprintf("Hello BLS %v", i)]. *)
Definition Sprintf_Hello_BLS (i : nat) : string :=
  "Hello BLS " ++ NilZero.string_of_uint (Nat.to_uint i).

Section Programs.
Context {HX : Hexutil} {B : BLS}.

(** [main.go] lines 135-179.  [rndKey] and [rndBatch] are the states of the
    random source when the key is generated and when the batch is checked.
    The loop of lines 161-164 appends five times to both slices. *)
Definition main (rndKey rndBatch : Entropy) : run :=
  match GenerateKeyPair rndKey with
  | (_, _, Some err) => ([[VString "Error generating key pair:"; VError err]], None)
  | (privKey, pubKey, None) =>
      let out1 := [[VString "Private Key:"; VString privKey];
                   [VString "Public Key:"; VString pubKey]] in
      let message := "test message" in
      match GenerateSignature privKey message with
      | (_, Some err) => (out1 ++ [[VString "Error generating signature:"; VError err]], None)
      | (signature, None) =>
          let out2 := out1 ++ [[VString "Signature:"; VString signature]] in
          match VerifySignature pubKey signature message with
          | (_, Some err) =>
              (out2 ++ [[VString "Error verifying signature:"; VError err]], None)
          | (valid, None) =>
              let out3 := out2 ++ [[VString "Signature valid:"; VBool valid]] in
              let slices :=
                Nat.iter 5 (fun st => (fst st ++ [pubKey], snd st ++ [signature]))
                  (@nil string, @nil string) in
              let pubKeyHexes := fst slices in
              let sigHexes := snd slices in
              match AggregateSignatures sigHexes with
              | Panics why => (out3, Some why)
              | Returns (_, Some err) =>
                  (out3 ++ [[VString "Error aggregating signatures:"; VError err]], None)
              | Returns (aggSig, None) =>
                  let out4 := out3 ++ [[VString "Aggregate Signature:"; VString aggSig]] in
                  match VerifyAggregateSignature rndBatch aggSig message pubKeyHexes with
                  | (_, Some err) =>
                      (out4 ++ [[VString "Error verifying aggregate signature:"; VError err]],
                       None)
                  | (valid', None) =>
                      (out4 ++ [[VString "Aggregate signature valid:"; VBool valid']], None)
                  end
              end
          end
      end
  end.

(** One round of the first loop of the second program, lines 205-214: the
    message array is appended to [xMsgs], copied into a fresh 32-byte slice
    and signed. *)
Definition related_round (sk : SecretKey) (st : list bytes * list Signature) (i : nat)
  : list bytes * list Signature :=
  let msg := copy zero32 (bytes_of (Sprintf_Hello_BLS i)) in
  let xMsgs' := fst st ++ [msg] in
  let data := copy (repeat x00 32) msg in
  (xMsgs', snd st ++ [sk_Sign sk data]).

(** The second program of the repository (the second [main], lines
    190-242), which calls the library directly: ten messages signed with one
    key, aggregated, the first signature verified alone and all ten verified
    as a batch, each with its own message. *)
Definition main_related (rndKey rndBatch : Entropy) : run :=
  match bls_RandKey rndKey with
  | inr err => ([[VError (Foreign err)]], None)
  | inl sk =>
      let st := fold_left (related_round sk) (seq 0 10) ([], []) in
      let xMsgs := fst st in
      let sigs := snd st in
      match bls_AggregateSignatures sigs with
      | None => ([], Some "invalid memory address or nil pointer dereference")
      | Some agg =>
          let aggHex := hexutil_Encode (sig_Marshal agg) in
          let out1 := [[VString "aggregated sig:"; VString aggHex]] in
          let msg := copy zero32 (bytes_of "Hello BLS 0") in
          let out2 := out1 ++ [[VString "outer msg:"; VArray msg]] in
          match sigs with
          | [] => (out2, Some "index out of range [0] with length 0")
          | sig0 :: _ =>
              match bls_VerifySignature (sig_Marshal sig0) msg (sk_PublicKey sk) with
              | (_, Some err) => (out2 ++ [[VError (Foreign err)]], None)
              | (s, None) =>
                  let out3 :=
                    out2 ++ [[VString "Verification result for one sig:"; VBool s]] in
                  let st2 :=
                    fold_left
                      (fun st2 sig =>
                         (fst st2 ++ [sig_Marshal sig], snd st2 ++ [sk_PublicKey sk]))
                      sigs ([], []) in
                  let xSigsBytes := fst st2 in
                  let xPKs := snd st2 in
                  match bls_VerifyMultipleSignatures rndBatch xSigsBytes xMsgs xPKs with
                  | (_, Some err) => (out3 ++ [[VError (Foreign err)]], None)
                  | (s', None) =>
                      (out3 ++ [[VString "Verification result for multiple sig:"; VBool s']],
                       None)
                  end
              end
          end
      end
  end.

End Programs.

(** ** The message codec in the words of the specification *)

(** "copies up to the digest width (fixed at 32 bytes) starting at offset 0,
    left-aligned, zero-padding any remaining trailing bytes if the message is
    shorter": the leading 32 bytes, then zeros up to 32. *)
Definition encode (msg : string) : bytes :=
  firstn 32 (bytes_of msg) ++ repeat x00 (32 - List.length (bytes_of msg)).

(** The leading [n] bytes of a Go string: [msg[:n]], or [msg] when shorter. *)
Definition leading (n : nat) (msg : string) : string :=
  string_of_list_byte (firstn n (bytes_of msg)).

(** ** A reference implementation of the collaborators

    Not part of [main.go]: an implementation of [Hexutil] and [BLS] against
    which the wrappers run.  The hex codec follows go-ethereum's [hexutil]
    ([0x] prefix, lower-case output, either case accepted).  The curve package
    follows Prysm's [crypto/bls/blst] in the exponent representation: a point
    [x * G] of a group of prime order [q] is represented by [x], the pairing
    of [x * G1] and [y * G2] by [x * y mod q], and hashing to the curve by a
    map from digests to non-zero exponents.  Every identity of BLS signing,
    aggregation and verification is an identity on these exponents; nothing
    of the curve's hardness is (or needs to be) modelled. *)
Module Ref.

(** *** hexutil *)

Definition hexdigit (n : N) : ascii :=
  ascii_of_N (if (n <? 10)%N then 48 + n else 87 + n)%N.

Definition fromHexChar (c : ascii) : option N :=
  let n := N_of_ascii c in
  if ((48 <=? n) && (n <=? 57))%N then Some (n - 48)%N
  else if ((97 <=? n) && (n <=? 102))%N then Some (n - 87)%N
  else if ((65 <=? n) && (n <=? 70))%N then Some (n - 55)%N
  else None.

Definition byte_of_N (n : N) : byte :=
  match Byte.of_N n with Some b => b | None => x00 end.

Fixpoint hex_EncodeToString (b : bytes) : string :=
  match b with
  | [] => EmptyString
  | x :: rest =>
      String (hexdigit (Byte.to_N x / 16)) (String (hexdigit (Byte.to_N x mod 16))
        (hex_EncodeToString rest))
  end.

Fixpoint hex_DecodeString (s : string) : bytes + string :=
  match s with
  | EmptyString => inl []
  | String a EmptyString =>
      match fromHexChar a with
      | None => inr "invalid hex string"
      | Some _ => inr "hex string of odd length"
      end
  | String a (String b rest) =>
      match fromHexChar a, fromHexChar b with
      | Some hi, Some lo =>
          match hex_DecodeString rest with
          | inl bs => inl (byte_of_N (hi * 16 + lo) :: bs)
          | inr e => inr e
          end
      | _, _ => inr "invalid hex string"
      end
  end.

Definition Encode (b : bytes) : string := "0x" ++ hex_EncodeToString b.

Definition Decode (input : string) : bytes + string :=
  match input with
  | EmptyString => inr "empty hex string"
  | String "0" (String c rest) =>
      if (Ascii.eqb c "x" || Ascii.eqb c "X")%bool then hex_DecodeString rest
      else inr "hex string without 0x prefix"
  | _ => inr "hex string without 0x prefix"
  end.

Definition hexutil : Hexutil :=
  {| hexutil_Decode := Decode; hexutil_Encode := Encode |}.

(** *** Exponents and their fixed-width big-endian encoding *)

Local Open Scope Z_scope.

(** The order of the BLS12-381 groups. *)
Definition q : Z :=
  52435875175126190479447740508185965837690552500527637822603658699938581184513.

(** [nz]: the identity (exponent 0) is excluded, as for keys. *)
Definition in_range (nz : bool) (v : Z) : bool :=
  ((if nz then 1 else 0) <=? v) && (v <? q).

Record scalar (nz : bool) : Type := mkScalar {
  val : Z;
  val_ok : in_range nz val = true
}.
Arguments val {nz} s.
Arguments val_ok {nz} s.

Definition to_scalar (nz : bool) (v : Z) : option (scalar nz) :=
  match bool_dec (in_range nz v) true with
  | left ok => Some (mkScalar nz v ok)
  | right _ => None
  end.

Definition zero : scalar false := mkScalar false 0 eq_refl.

Definition reduce (v : Z) : scalar false :=
  match to_scalar false (v mod q) with
  | Some s => s
  | None => zero
  end.

Definition Z_of_byte (b : byte) : Z := Z.of_N (Byte.to_N b).

Fixpoint be_bytes (width : nat) (v : Z) : bytes :=
  match width with
  | O => []
  | S w => be_bytes w (v / 256) ++ [byte_of_N (Z.to_N (v mod 256))]
  end.

Definition be_Z (b : bytes) : Z :=
  fold_left (fun acc x => acc * 256 + Z_of_byte x) b 0.

Definition marshal {nz : bool} (width : nat) (s : scalar nz) : bytes :=
  be_bytes width (val s).

(** Deserialization: the width is checked, then that the value is below the
    group order, then (for keys) that it is not the identity. *)
Definition unmarshal (nz : bool) (width : nat) (badLength badValue identity : string)
    (b : bytes) : scalar nz + string :=
  if negb (List.length b =? width)%nat then inr badLength
  else if q <=? be_Z b then inr badValue
  else
    match to_scalar nz (be_Z b) with
    | Some s => inl s
    | None => inr identity
    end.

(** *** crypto/bls *)

(** Hashing a digest to the curve, as an exponent: never the identity. *)
Definition hash_to_curve (d : bytes) : Z := 1 + be_Z d mod (q - 1).

Definition SecretKeyFromBytes : bytes -> scalar true + string :=
  unmarshal true 32 "secret key must be 32 bytes"
    "could not unmarshal bytes into secret key" "received secret key is zero".

Definition PublicKeyFromBytes : bytes -> scalar true + string :=
  unmarshal true 48 "public key must be 48 bytes"
    "could not unmarshal bytes into public key" "received an infinite public key".

Definition SignatureFromBytes : bytes -> scalar false + string :=
  unmarshal false 96 "signature must be 96 bytes"
    "could not unmarshal bytes into signature" "signature not in group".

(** Key generation: the first draw of the random source, mapped to a
    non-zero exponent. *)
Definition RandKey (rnd : nat -> Z) : scalar true + string :=
  match to_scalar true (1 + rnd O mod (q - 1)) with
  | Some k => inl k
  | None => inr "received secret key is zero"
  end.

(** [sk.Sign(msg)]: the point [k * H(msg)]. *)
Definition Sign (k : scalar true) (msg : bytes) : scalar false :=
  reduce (val k * hash_to_curve msg).

(** The pairing check [e(sig, G) = e(H(msg), pk)]. *)
Definition Verify (s : scalar false) (pk : scalar true) (msg : bytes) : bool :=
  val s =? (hash_to_curve msg * val pk) mod q.

Definition add (a b : scalar false) : scalar false := reduce (val a + val b).

(** No signature: the nil interface value; otherwise the sum. *)
Definition Aggregate (l : list (scalar false)) : option (scalar false) :=
  match l with
  | [] => None
  | s :: rest => Some (fold_left add rest s)
  end.

(** [bls.VerifySignature]: the signature is deserialized, then checked. *)
Definition VerifySig (sig msg : bytes) (pk : scalar true) : bool * option string :=
  match SignatureFromBytes sig with
  | inr e => (false, Some e)
  | inl s => (Verify s pk msg, None)
  end.

Fixpoint uncompress_all (l : list bytes) : option (list (scalar false)) :=
  match l with
  | [] => Some []
  | b :: rest =>
      match SignatureFromBytes b, uncompress_all rest with
      | inl s, Some ss => Some (s :: ss)
      | _, _ => None
      end
  end.

(** The [i]-th random coefficient of a batch, "a number randomly from 1 to
    max uint64". *)
Definition coefficient (rnd : nat -> Z) (i : nat) : Z := 1 + rnd i mod (2 ^ 64 - 1).

(** Both sides of the batch equation
    [e(r_1 S_1 + ... + r_n S_n, G) = e(H(m_1), r_1 P_1) ... e(H(m_n), r_n P_n)]. *)
Fixpoint batch (rnd : nat -> Z) (i : nat) (ss : list (scalar false))
    (ms : list bytes) (ps : list (scalar true)) : Z * Z :=
  match ss, ms, ps with
  | s :: ss', m :: ms', p :: ps' =>
      let r := coefficient rnd i in
      let rest := batch rnd (S i) ss' ms' ps' in
      (r * val s + fst rest, r * (hash_to_curve m * val p) + snd rest)
  | _, _, _ => (0, 0)
  end.

(** [bls.VerifyMultipleSignatures]: batch verification of the triples
    [(sigs[i], msgs[i], pks[i])].  An empty batch is refused with no error
    before anything is looked at; slices of different lengths are an error. *)
Definition VerifyMultipleSignatures (rnd : nat -> Z) (sigs msgs : list bytes)
    (pks : list (scalar true)) : bool * option string :=
  if ((List.length sigs =? 0) || (List.length pks =? 0))%nat then (false, None)
  else if negb ((List.length sigs =? List.length pks)
                && (List.length sigs =? List.length msgs))%nat
  then (false, Some "provided signatures, pubkeys and messages have differing lengths")
  else
    match uncompress_all sigs with
    | None => (false, None)
    | Some raw =>
        let sides := batch rnd O raw msgs pks in
        (fst sides mod q =? snd sides mod q, None)
    end.

Definition bls : BLS :=
  {| Entropy := nat -> Z;
     SecretKey := scalar true;
     PublicKey := scalar true;
     Signature := scalar false;
     bls_RandKey := RandKey;
     bls_SecretKeyFromBytes := SecretKeyFromBytes;
     bls_PublicKeyFromBytes := PublicKeyFromBytes;
     bls_SignatureFromBytes := SignatureFromBytes;
     sk_PublicKey := fun k => k;
     sk_Sign := Sign;
     sk_Marshal := marshal 32;
     pk_Marshal := marshal 48;
     sig_Marshal := marshal 96;
     sig_Verify := Verify;
     bls_AggregateSignatures := Aggregate;
     bls_VerifySignature := VerifySig;
     bls_VerifyMultipleSignatures := VerifyMultipleSignatures |}.

End Ref.

(** ** The run of [main()], and other concrete inputs *)

Module Scenario.

#[local] Existing Instances Ref.hexutil Ref.bls.

(** Two states of the random source at key generation. *)
Definition seed1 : nat -> Z :=
  fun i => (31415926535897932384626433832795028841971693993751058209749445923
            + Z.of_nat i)%Z.
Definition seed2 : nat -> Z :=
  fun i => (27182818284590452353602874713526624977572470936999595749669676277
            * (1 + Z.of_nat i))%Z.

Definition privKey : string := Eval vm_compute in fst (fst (GenerateKeyPair seed1)).
Definition pubKey : string := Eval vm_compute in snd (fst (GenerateKeyPair seed1)).
Definition privKey2 : string := Eval vm_compute in fst (fst (GenerateKeyPair seed2)).
Definition pubKey2 : string := Eval vm_compute in snd (fst (GenerateKeyPair seed2)).

Definition message : string := "test message".
Definition message32 : string := "0123456789abcdef0123456789abcdef".
Definition message33 : string := "0123456789abcdef0123456789abcdefX".
Definition message40 : string := "0123456789abcdef0123456789abcdef--tail--".

Definition signature : string := Eval vm_compute in fst (GenerateSignature privKey message).
Definition signature2 : string := Eval vm_compute in fst (GenerateSignature privKey2 message).

(** [main()] lines 159-166: five copies of the key and of the signature. *)
Definition pubKeyHexes : list string := repeat pubKey 5.
Definition sigHexes : list string := repeat signature 5.

Definition aggSig : string :=
  Eval vm_compute in
    match AggregateSignatures sigHexes with
    | Returns (h, _) => h
    | Panics _ => ""
    end.

End Scenario.

(** ** Lists, [copy] and the digest *)

Lemma skipn_repeat {A : Type} (x : A) (n m : nat) :
  skipn m (repeat x n) = repeat x (n - m).
Proof.
  revert m; induction n as [|n IH]; intros [|m]; simpl; auto.
Qed.

Lemma copy_zero32 (b : bytes) :
  copy zero32 b = firstn 32 b ++ repeat x00 (32 - List.length b).
Proof.
  unfold copy, zero32. rewrite repeat_length. f_equal. apply skipn_repeat.
Qed.

Lemma copy_zero32_encode (msg : string) : copy zero32 (bytes_of msg) = encode msg.
Proof. apply copy_zero32. Qed.

Lemma encode_length (msg : string) : List.length (encode msg) = 32%nat.
Proof.
  unfold encode. rewrite length_app, length_firstn, repeat_length. lia.
Qed.

Lemma encode_short (msg : string) :
  (List.length (bytes_of msg) <= 32)%nat ->
  encode msg = bytes_of msg ++ repeat x00 (32 - List.length (bytes_of msg)).
Proof.
  intros H. unfold encode. now rewrite firstn_all2.
Qed.

Lemma encode_exact (msg : string) :
  List.length (bytes_of msg) = 32%nat -> encode msg = bytes_of msg.
Proof.
  intros H. rewrite encode_short by lia. rewrite H. simpl. apply app_nil_r.
Qed.

Lemma encode_long (msg : string) :
  (32 <= List.length (bytes_of msg))%nat -> encode msg = firstn 32 (bytes_of msg).
Proof.
  intros H. unfold encode.
  replace (32 - List.length (bytes_of msg))%nat with 0%nat by lia.
  apply app_nil_r.
Qed.

Lemma bytes_of_leading (n : nat) (msg : string) :
  bytes_of (leading n msg) = firstn n (bytes_of msg).
Proof. apply list_byte_of_string_of_list_byte. Qed.

Lemma encode_leading (msg : string) : encode (leading 32 msg) = encode msg.
Proof.
  unfold encode. rewrite bytes_of_leading, firstn_firstn, length_firstn.
  replace (Nat.min 32 32) with 32%nat by reflexivity.
  f_equal. f_equal. lia.
Qed.

(** ** Properties of the wrappers, for every implementation of the collaborators *)

Section WrapperProperties.
Context {HX : Hexutil} {B : BLS}.

(** What one round of a decoding loop makes of a hex string. *)
Definition parsed_sig (sigHex : string) : option Signature :=
  match hexutil_Decode sigHex with
  | inl b => match bls_SignatureFromBytes b with inl s => Some s | inr _ => None end
  | inr _ => None
  end.

Definition parsed_pk (pubKeyHex : string) : option PublicKey :=
  match hexutil_Decode pubKeyHex with
  | inl b => match bls_PublicKeyFromBytes b with inl p => Some p | inr _ => None end
  | inr _ => None
  end.

Definition parsed_sk (privKeyHex : string) : option SecretKey :=
  match hexutil_Decode privKeyHex with
  | inl b => match bls_SecretKeyFromBytes b with inl k => Some k | inr _ => None end
  | inr _ => None
  end.

(** A well-formed signature hex string: it decodes and deserializes. *)
Definition well_formed_sig (sigHex : string) : Prop := parsed_sig sigHex <> None.

(** The signatures of the strings that parse, in order. *)
Definition parsed_sigs (sigHexes : list string) : list Signature :=
  flat_map (fun h => match parsed_sig h with Some s => [s] | None => [] end) sigHexes.

Ltac case_parse :=
  repeat match goal with
  | |- context [match hexutil_Decode ?h with _ => _ end] =>
      destruct (hexutil_Decode h) eqn:?
  | |- context [match bls_SignatureFromBytes ?b with _ => _ end] =>
      destruct (bls_SignatureFromBytes b) eqn:?
  | |- context [match bls_PublicKeyFromBytes ?b with _ => _ end] =>
      destruct (bls_PublicKeyFromBytes b) eqn:?
  | |- context [match bls_SecretKeyFromBytes ?b with _ => _ end] =>
      destruct (bls_SecretKeyFromBytes b) eqn:?
  end.

Lemma AggregateSignatures_loop_ok (sigHexes : list string) :
  Forall well_formed_sig sigHexes ->
  forall acc, AggregateSignatures_loop sigHexes acc = inl (acc ++ parsed_sigs sigHexes).
Proof.
  induction 1 as [|h rest Hh _ IH]; intros acc; simpl.
  - now rewrite app_nil_r.
  - unfold well_formed_sig, parsed_sig in Hh. unfold parsed_sig.
    destruct (hexutil_Decode h) as [b|]; [|congruence].
    destruct (bls_SignatureFromBytes b) as [s|]; [|congruence].
    rewrite IH. simpl. now rewrite <- app_assoc.
Qed.


(** The first loop of [VerifyAggregateSignature] reads the message only
    through the 32-byte array it copies it into. *)
Lemma VerifyAggregateSignature_loop_digest (aggregateSigHex msg msg' : string) :
  copy zero32 (bytes_of msg) = copy zero32 (bytes_of msg') ->
  forall pubKeyHexes st,
    VerifyAggregateSignature_loop aggregateSigHex msg pubKeyHexes st =
    VerifyAggregateSignature_loop aggregateSigHex msg' pubKeyHexes st.
Proof.
  intros E. induction pubKeyHexes as [|h rest IH]; intros st; simpl; [reflexivity|].
  rewrite E. case_parse; auto.
Qed.

(** On well-formed inputs the loop appends, per public key, one copy of the
    digest, the key, and one copy of the signature. *)
Lemma VerifyAggregateSignature_loop_ok (aggregateSigHex msg : string) (s : Signature) :
  parsed_sig aggregateSigHex = Some s ->
  forall pubKeyHexes pks, Forall2 (fun h p => parsed_pk h = Some p) pubKeyHexes pks ->
  forall st,
    VerifyAggregateSignature_loop aggregateSigHex msg pubKeyHexes st =
    inl (mkAggState
           (xMsgs st ++ repeat (encode msg) (List.length pks))
           (xPKs st ++ pks)
           (sigs st ++ repeat s (List.length pks))).
Proof.
  intros Hs. induction 1 as [|h p rest pks Hp _ IH]; intros st; simpl.
  - rewrite !app_nil_r. now destruct st.
  - unfold parsed_pk in Hp. unfold parsed_sig in Hs.
    destruct (hexutil_Decode h) as [pb|]; [|discriminate].
    destruct (bls_PublicKeyFromBytes pb) as [p'|]; [|discriminate].
    injection Hp as ->.
    destruct (hexutil_Decode aggregateSigHex) as [sb|]; [|discriminate].
    destruct (bls_SignatureFromBytes sb) as [s'|]; [|discriminate].
    injection Hs as ->.
    rewrite IH. simpl. rewrite copy_zero32_encode, <- !app_assoc. reflexivity.
Qed.

Lemma VerifyAggregateSignature_no_keys (rnd : Entropy) (aggregateSigHex msg : string) :
  VerifyAggregateSignature rnd aggregateSigHex msg [] =
  foreign (bls_VerifyMultipleSignatures rnd [] [] []).
Proof. unfold VerifyAggregateSignature. simpl. reflexivity. Qed.

Lemma VerifyAggregateSignature_ok (rnd : Entropy) (aggregateSigHex msg : string)
    (pubKeyHexes : list string) (s : Signature) (pks : list PublicKey) :
  parsed_sig aggregateSigHex = Some s ->
  Forall2 (fun h p => parsed_pk h = Some p) pubKeyHexes pks ->
  VerifyAggregateSignature rnd aggregateSigHex msg pubKeyHexes =
  foreign (bls_VerifyMultipleSignatures rnd
             (repeat (sig_Marshal s) (List.length pks))
             (repeat (encode msg) (List.length pks))
             pks).
Proof.
  intros Hs Hpk. unfold VerifyAggregateSignature.
  rewrite (VerifyAggregateSignature_loop_ok aggregateSigHex msg s Hs _ _ Hpk).
  simpl. now rewrite map_repeat.
Qed.

(** C1 (as amended).  [VerifyAggregateSignature] has no check for an empty
    key list and does not fail with an empty-input error.  With no public
    key it decodes neither the signature nor a key and returns, unchanged,
    the pair the library's batch verification returns for three empty
    slices: the only error it can return is one the library returns there,
    and with a library that answers the empty batch with [(false, nil)] it
    returns the verdict [(false, nil)].  (Nothing is stated of
    [AggregateSignatures] on the empty slice.) *)
Theorem empty_key_list_returns_the_batch_result :
  forall (rnd : Entropy) (aggregateSigHex msg : string),
    VerifyAggregateSignature rnd aggregateSigHex msg [] =
      foreign (bls_VerifyMultipleSignatures rnd [] [] []) /\
    (forall e : error,
        snd (VerifyAggregateSignature rnd aggregateSigHex msg []) = Some e ->
        exists cause,
          e = Foreign cause /\
          snd (bls_VerifyMultipleSignatures rnd [] [] []) = Some cause) /\
    (bls_VerifyMultipleSignatures rnd [] [] [] = (false, None) ->
     VerifyAggregateSignature rnd aggregateSigHex msg [] = (false, None)).
Proof.
  intros rnd aggregateSigHex msg.
  rewrite VerifyAggregateSignature_no_keys. split; [reflexivity|split].
  - intros e He. unfold foreign in He. cbn [snd] in He.
    destruct (snd (bls_VerifyMultipleSignatures rnd [] [] [])) as [cause|];
      [|discriminate].
    injection He as <-. now exists cause.
  - intros E. now rewrite E.
Qed.

(** C10.  With no public key, the result of [VerifyAggregateSignature] does
    not depend on the signature or on the message: any two signatures (hex
    or not) and any two messages give the same outcome, the signature being
    decoded only inside the loop over the public keys. *)
Theorem empty_keys_ignore_signature_and_message :
  forall (rnd : Entropy) (sig1 sig2 msg1 msg2 : string),
    VerifyAggregateSignature rnd sig1 msg1 [] = VerifyAggregateSignature rnd sig2 msg2 [].
Proof.
  intros rnd sig1 sig2 msg1 msg2.
  now rewrite !VerifyAggregateSignature_no_keys.
Qed.

(** C3.  [VerifySignature] at the 32-byte boundary.  A message of exactly
    32 bytes raises no length error, and with a decodable signature and a
    well-formed public key the call is the library's pairing check on the
    message bytes themselves (nothing padded, nothing cut).  A message of 33
    bytes or more yields [ErrInvalidMsgLength] whatever the other two
    arguments are, so before either of them is looked at. *)
Theorem verify_message_length_boundary :
  forall (pubKeyHex sigHex msg : string),
    (List.length (bytes_of msg) = 32%nat ->
       snd (VerifySignature pubKeyHex sigHex msg) <> Some ErrInvalidMsgLength /\
       forall (sigBytes : bytes) (pubKey : PublicKey),
         hexutil_Decode sigHex = inl sigBytes ->
         parsed_pk pubKeyHex = Some pubKey ->
         VerifySignature pubKeyHex sigHex msg =
         foreign (bls_VerifySignature sigBytes (bytes_of msg) pubKey)) /\
    ((33 <= List.length (bytes_of msg))%nat ->
       VerifySignature pubKeyHex sigHex msg = (false, Some ErrInvalidMsgLength)).
Proof.
  intros pubKeyHex sigHex msg. split.
  - intros Hlen. unfold VerifySignature.
    assert (Hle : (32 <? List.length (bytes_of msg))%nat = false)
      by (apply Nat.ltb_ge; lia).
    rewrite Hle, copy_zero32_encode, encode_exact by assumption. split.
    + case_parse; simpl; try discriminate.
      destruct (snd (bls_VerifySignature _ _ _)); simpl; discriminate.
    + intros sigBytes pubKey Hs Hp. unfold parsed_pk in Hp. rewrite Hs.
      destruct (hexutil_Decode pubKeyHex) as [pb|]; [|discriminate].
      destruct (bls_PublicKeyFromBytes pb) as [p|]; [|discriminate].
      now injection Hp as ->.
  - intros Hlen. unfold VerifySignature.
    assert (Hlt : (32 <? List.length (bytes_of msg))%nat = true)
      by (apply Nat.ltb_lt; lia).
    now rewrite Hlt.
Qed.

(** C7.  The digest [GenerateSignature] signs is the message left-aligned in
    32 bytes: byte [i] of the digest is byte [i] of the message for every
    [i] below both 32 and the message length, and zero from the end of the
    message on; a longer message contributes its leading 32 bytes only, and
    no message length is an error. *)
Theorem signing_digest_is_left_aligned :
  forall (privKeyHex msg : string) (sk : SecretKey),
    parsed_sk privKeyHex = Some sk ->
    GenerateSignature privKeyHex msg =
      (hexutil_Encode (sig_Marshal (sk_Sign sk (encode msg))), None) /\
    List.length (encode msg) = 32%nat /\
    (forall i, (i < 32)%nat -> (i < List.length (bytes_of msg))%nat ->
               nth i (encode msg) x00 = nth i (bytes_of msg) x00) /\
    (forall i, (List.length (bytes_of msg) <= i)%nat -> nth i (encode msg) x00 = x00) /\
    ((32 <= List.length (bytes_of msg))%nat -> encode msg = firstn 32 (bytes_of msg)).
Proof.
  intros privKeyHex msg sk Hsk. repeat split.
  - unfold GenerateSignature. unfold parsed_sk in Hsk.
    destruct (hexutil_Decode privKeyHex) as [b|]; [|discriminate].
    destruct (bls_SecretKeyFromBytes b) as [k|]; [|discriminate].
    injection Hsk as ->. now rewrite copy_zero32_encode.
  - apply encode_length.
  - intros i Hi Hlen. unfold encode.
    rewrite app_nth1 by (rewrite length_firstn; lia).
    rewrite nth_firstn. now destruct (Nat.ltb_spec i 32); [|lia].
  - intros i Hlen. unfold encode.
    destruct (Nat.lt_ge_cases i 32) as [Hi|Hi].
    + rewrite app_nth2 by (rewrite length_firstn; lia). apply nth_repeat.
    + apply nth_overflow. fold (encode msg). rewrite encode_length. lia.
  - apply encode_long.
Qed.

(** C8.  [GenerateSignature] returns an error exactly when the key fails to
    hex-decode or the decoded bytes fail to deserialize as a secret key; with
    a valid key it returns a signature hex string and no error, for a message
    of any length. *)
Theorem signing_fails_exactly_on_a_bad_key :
  forall (privKeyHex msg : string),
    ((exists e, snd (GenerateSignature privKeyHex msg) = Some e) <->
     ((exists m, hexutil_Decode privKeyHex = inr m) \/
      (exists b m, hexutil_Decode privKeyHex = inl b /\ bls_SecretKeyFromBytes b = inr m))) /\
    (forall b sk, hexutil_Decode privKeyHex = inl b -> bls_SecretKeyFromBytes b = inl sk ->
       GenerateSignature privKeyHex msg =
         (hexutil_Encode (sig_Marshal (sk_Sign sk (copy zero32 (bytes_of msg)))), None)).
Proof.
  intros privKeyHex msg. unfold GenerateSignature. split; [split|].
  - intros [e He]. destruct (hexutil_Decode privKeyHex) as [b|m].
    + right. destruct (bls_SecretKeyFromBytes b) as [k|m'] eqn:Hb.
      * discriminate.
      * exists b, m'. now split.
    + left. now exists m.
  - intros [[m Hm]|[b [m [Hb Hm]]]].
    + rewrite Hm. eexists. reflexivity.
    + rewrite Hb, Hm. eexists. reflexivity.
  - intros b sk Hb Hk. now rewrite Hb, Hk.
Qed.

(** C9.  [VerifyAggregateSignature] has no length check.  For a message of
    more than 32 bytes, a well-formed aggregate signature and a non-empty
    list of well-formed public keys, it returns what the library's batch
    verification returns on one copy of the signature and one copy of the
    leading 32 bytes of the message per public key; that is never the
    length error, and it is the result for the truncated message. *)
Theorem aggregate_verify_truncates_long_messages :
  forall (rnd : Entropy) (aggregateSigHex msg : string) (pubKeyHexes : list string)
         (s : Signature) (pks : list PublicKey),
    (32 < List.length (bytes_of msg))%nat ->
    pubKeyHexes <> [] ->
    parsed_sig aggregateSigHex = Some s ->
    Forall2 (fun h p => parsed_pk h = Some p) pubKeyHexes pks ->
    VerifyAggregateSignature rnd aggregateSigHex msg pubKeyHexes =
      foreign (bls_VerifyMultipleSignatures rnd
                 (repeat (sig_Marshal s) (List.length pks))
                 (repeat (firstn 32 (bytes_of msg)) (List.length pks))
                 pks) /\
    snd (VerifyAggregateSignature rnd aggregateSigHex msg pubKeyHexes)
      <> Some ErrInvalidMsgLength /\
    VerifyAggregateSignature rnd aggregateSigHex msg pubKeyHexes =
      VerifyAggregateSignature rnd aggregateSigHex (leading 32 msg) pubKeyHexes.
Proof.
  intros rnd aggregateSigHex msg pubKeyHexes s pks Hlen _ Hs Hpk.
  assert (E : VerifyAggregateSignature rnd aggregateSigHex msg pubKeyHexes =
              foreign (bls_VerifyMultipleSignatures rnd
                 (repeat (sig_Marshal s) (List.length pks))
                 (repeat (firstn 32 (bytes_of msg)) (List.length pks))
                 pks)).
  { rewrite (VerifyAggregateSignature_ok rnd aggregateSigHex msg _ s pks Hs Hpk).
    now rewrite encode_long by lia. }
  split; [exact E|split].
  - rewrite E. unfold foreign. simpl.
    destruct (snd (bls_VerifyMultipleSignatures _ _ _ _)); simpl; discriminate.
  - unfold VerifyAggregateSignature.
    rewrite (VerifyAggregateSignature_loop_digest aggregateSigHex msg (leading 32 msg));
      [reflexivity|].
    now rewrite !copy_zero32_encode, encode_leading.
Qed.

(** *** What the theorems below ask of the collaborators *)

Section Contract.

(** Encoding then decoding gives the bytes back. *)
Hypothesis hex_round_trip : forall b : bytes, hexutil_Decode (hexutil_Encode b) = inl b.

(** Marshalled keys and signatures deserialize to themselves. *)
Hypothesis sk_round_trip : forall k : SecretKey, bls_SecretKeyFromBytes (sk_Marshal k) = inl k.
Hypothesis pk_round_trip : forall p : PublicKey, bls_PublicKeyFromBytes (pk_Marshal p) = inl p.
Hypothesis sig_round_trip : forall s : Signature, bls_SignatureFromBytes (sig_Marshal s) = inl s.

(** [bls.VerifySignature] deserializes the signature and, when that
    succeeds, returns the verdict of the pairing check and no error. *)
Hypothesis VerifySignature_checks :
  forall (b msg : bytes) (s : Signature) (p : PublicKey),
    bls_SignatureFromBytes b = inl s ->
    bls_VerifySignature b msg p = (sig_Verify s p msg, None).

(** Correctness of the scheme: a signature verifies under the public key of
    the key that made it. *)
Hypothesis Sign_verifies :
  forall (k : SecretKey) (msg : bytes), sig_Verify (sk_Sign k msg) (sk_PublicKey k) msg = true.

(** Point addition commutes: the aggregate does not depend on the order. *)
Hypothesis Aggregate_perm :
  forall l l' : list Signature,
    Permutation l l' -> bls_AggregateSignatures l = bls_AggregateSignatures l'.

(** C4.  For a message of at most 32 bytes, a signature that decodes and
    deserializes and a public key that does, [VerifySignature] returns no
    error: its result is the verdict of the pairing check on the encoded
    message.  A signature that does not verify (another key, another
    message) therefore gives [(false, nil)]. *)
Theorem verify_false_is_not_an_error :
  forall (pubKeyHex sigHex msg : string) (s : Signature) (pk : PublicKey),
    (List.length (bytes_of msg) <= 32)%nat ->
    parsed_sig sigHex = Some s ->
    parsed_pk pubKeyHex = Some pk ->
    VerifySignature pubKeyHex sigHex msg = (sig_Verify s pk (encode msg), None) /\
    (sig_Verify s pk (encode msg) = false ->
     VerifySignature pubKeyHex sigHex msg = (false, None)).
Proof using VerifySignature_checks.
  intros pubKeyHex sigHex msg s pk Hlen Hs Hp.
  assert (E : VerifySignature pubKeyHex sigHex msg = (sig_Verify s pk (encode msg), None)).
  { unfold VerifySignature.
    assert (Hle : (32 <? List.length (bytes_of msg))%nat = false)
      by (apply Nat.ltb_ge; lia).
    rewrite Hle. unfold parsed_sig in Hs. unfold parsed_pk in Hp.
    destruct (hexutil_Decode sigHex) as [sb|]; [|discriminate].
    destruct (bls_SignatureFromBytes sb) as [s'|] eqn:Hsb; [|discriminate].
    injection Hs as ->.
    destruct (hexutil_Decode pubKeyHex) as [pb|]; [|discriminate].
    destruct (bls_PublicKeyFromBytes pb) as [p'|]; [|discriminate].
    injection Hp as ->.
    rewrite copy_zero32_encode, (VerifySignature_checks _ _ _ _ Hsb). reflexivity. }
  split; [exact E|]. intros Hf. now rewrite E, Hf.
Qed.

(** C5.  A key pair made by [GenerateKeyPair] signs and verifies: for a
    message of at most 32 bytes, [GenerateSignature] with the secret key
    returns a signature and no error, and [VerifySignature] of that signature
    with the public key returns [(true, nil)]. *)
Theorem sign_then_verify_succeeds :
  forall (rnd : Entropy) (skHex pkHex msg : string),
    GenerateKeyPair rnd = (skHex, pkHex, None) ->
    (List.length (bytes_of msg) <= 32)%nat ->
    snd (GenerateSignature skHex msg) = None /\
    VerifySignature pkHex (fst (GenerateSignature skHex msg)) msg = (true, None).
Proof using hex_round_trip sk_round_trip pk_round_trip sig_round_trip
            VerifySignature_checks Sign_verifies.
  intros rnd skHex pkHex msg Hkp Hlen. unfold GenerateKeyPair in Hkp.
  destruct (bls_RandKey rnd) as [sk|]; [|discriminate].
  injection Hkp as <- <-.
  unfold GenerateSignature. rewrite hex_round_trip, sk_round_trip. simpl.
  split; [reflexivity|].
  unfold VerifySignature.
  assert (Hle : (32 <? List.length (bytes_of msg))%nat = false)
    by (apply Nat.ltb_ge; lia).
  rewrite Hle, !hex_round_trip, pk_round_trip.
  rewrite (VerifySignature_checks _ _ _ _ (sig_round_trip _)), Sign_verifies.
  reflexivity.
Qed.


End Contract.

End WrapperProperties.

(** ** The reference implementation meets the contract *)

Module RefLaws.
Import Ref.
Local Open Scope Z_scope.

(** *** hexutil *)

Lemma hex_byte_round_trip (x : byte) :
  fromHexChar (hexdigit (Byte.to_N x / 16)) = Some (Byte.to_N x / 16)%N /\
  fromHexChar (hexdigit (Byte.to_N x mod 16)) = Some (Byte.to_N x mod 16)%N /\
  byte_of_N ((Byte.to_N x / 16) * 16 + Byte.to_N x mod 16) = x.
Proof. destruct x; vm_compute; repeat split. Qed.

Lemma hex_string_round_trip (b : bytes) : hex_DecodeString (hex_EncodeToString b) = inl b.
Proof.
  induction b as [|x rest IH]; [reflexivity|].
  destruct (hex_byte_round_trip x) as (Hhi & Hlo & Hx).
  cbn [hex_EncodeToString hex_DecodeString]. now rewrite Hhi, Hlo, IH, Hx.
Qed.

Lemma hex_round_trip (b : bytes) : Decode (Encode b) = inl b.
Proof. unfold Encode, Decode. simpl. apply hex_string_round_trip. Qed.

(** *** Exponents *)

Lemma q_pos : 0 < q.
Proof. reflexivity. Qed.

Lemma scalar_eq {nz : bool} (a b : scalar nz) : val a = val b -> a = b.
Proof.
  destruct a as [va oka], b as [vb okb]. simpl. intros <-.
  f_equal. apply UIP_dec, bool_dec.
Qed.

Lemma to_scalar_val {nz : bool} (s : scalar nz) : to_scalar nz (val s) = Some s.
Proof.
  unfold to_scalar. destruct (bool_dec (in_range nz (val s)) true) as [ok|no].
  - f_equal. now apply scalar_eq.
  - destruct no. apply val_ok.
Qed.

Lemma val_bounds {nz : bool} (s : scalar nz) : 0 <= val s < q.
Proof.
  pose proof (val_ok s) as H. unfold in_range in H.
  apply andb_true_iff in H as [Hlo Hhi].
  apply Z.leb_le in Hlo. apply Z.ltb_lt in Hhi. destruct nz; lia.
Qed.

Lemma reduce_val (v : Z) : val (reduce v) = v mod q.
Proof.
  unfold reduce, to_scalar.
  destruct (bool_dec (in_range false (v mod q)) true) as [ok|no]; [reflexivity|].
  destruct no. unfold in_range.
  pose proof (Z.mod_pos_bound v q q_pos) as [Hlo Hhi].
  apply andb_true_iff. split; [now apply Z.leb_le | now apply Z.ltb_lt].
Qed.

(** *** Big-endian bytes *)

Lemma Z_of_byte_of_N (v : Z) : 0 <= v < 256 -> Z_of_byte (byte_of_N (Z.to_N v)) = v.
Proof.
  intros Hv. unfold Z_of_byte, byte_of_N.
  destruct (Byte.of_N (Z.to_N v)) as [x|] eqn:E.
  - apply Byte.to_of_N in E. rewrite E. apply Z2N.id. lia.
  - apply Byte.of_N_None_iff in E. lia.
Qed.

Lemma be_Z_snoc (l : bytes) (x : byte) : be_Z (l ++ [x]) = be_Z l * 256 + Z_of_byte x.
Proof. unfold be_Z. now rewrite fold_left_app. Qed.

Lemma be_bytes_length (width : nat) : forall v, List.length (be_bytes width v) = width.
Proof.
  induction width as [|w IH]; intros v; simpl; [reflexivity|].
  rewrite length_app, IH. simpl. lia.
Qed.

Lemma be_round_trip (width : nat) :
  forall v, 0 <= v < 256 ^ Z.of_nat width -> be_Z (be_bytes width v) = v.
Proof.
  induction width as [|w IH]; intros v Hv.
  - simpl in *. unfold be_Z. simpl. lia.
  - cbn [be_bytes]. rewrite be_Z_snoc.
    rewrite Nat2Z.inj_succ, Z.pow_succ_r in Hv by lia.
    rewrite IH.
    + rewrite Z_of_byte_of_N by (apply Z.mod_pos_bound; lia).
      pose proof (Z.div_mod v 256). lia.
    + split; [apply Z.div_pos; lia|]. apply Z.div_lt_upper_bound; lia.
Qed.

Lemma unmarshal_marshal (nz : bool) (width : nat) (e1 e2 e3 : string) (s : scalar nz) :
  q <= 256 ^ Z.of_nat width -> unmarshal nz width e1 e2 e3 (marshal width s) = inl s.
Proof.
  intros Hq. unfold unmarshal, marshal. pose proof (val_bounds s) as Hs.
  rewrite be_bytes_length, Nat.eqb_refl. simpl.
  rewrite be_round_trip by lia.
  replace (q <=? val s) with false by (symmetry; apply Z.leb_gt; lia).
  now rewrite to_scalar_val.
Qed.

Lemma sk_round_trip (k : scalar true) : SecretKeyFromBytes (marshal 32 k) = inl k.
Proof. apply unmarshal_marshal. now apply Z.leb_le. Qed.

Lemma pk_round_trip (p : scalar true) : PublicKeyFromBytes (marshal 48 p) = inl p.
Proof. apply unmarshal_marshal. now apply Z.leb_le. Qed.

Lemma sig_round_trip (s : scalar false) : SignatureFromBytes (marshal 96 s) = inl s.
Proof. apply unmarshal_marshal. now apply Z.leb_le. Qed.

(** *** The scheme *)

Lemma VerifySig_checks (b msg : bytes) (s : scalar false) (p : scalar true) :
  SignatureFromBytes b = inl s -> VerifySig b msg p = (Verify s p msg, None).
Proof. intros H. unfold VerifySig. now rewrite H. Qed.

Lemma Sign_verifies (k : scalar true) (msg : bytes) : Verify (Sign k msg) k msg = true.
Proof.
  unfold Verify, Sign. rewrite reduce_val, (Z.mul_comm (val k)). apply Z.eqb_refl.
Qed.

(** The sum of the exponents of a list of signatures. *)
Definition total (l : list (scalar false)) : Z :=
  fold_right (fun s acc => val s + acc) 0 l.

Lemma fold_add_val (rest : list (scalar false)) :
  forall s, val (fold_left add rest s) = (val s + total rest) mod q.
Proof.
  induction rest as [|a rest IH]; intros s; simpl.
  - rewrite Z.add_0_r. symmetry. apply Z.mod_small, val_bounds.
  - rewrite IH. unfold add. rewrite reduce_val, Zplus_mod_idemp_l. f_equal. lia.
Qed.

Lemma Aggregate_total (l : list (scalar false)) :
  Aggregate l = match l with [] => None | _ => Some (reduce (total l)) end.
Proof.
  destruct l as [|s rest]; [reflexivity|]. simpl. f_equal.
  apply scalar_eq. now rewrite fold_add_val, reduce_val.
Qed.



End RefLaws.

(** ** The run of [main()] on the reference implementation *)

Module MainRun.
Import Ref RefLaws Scenario.
#[local] Existing Instances Ref.hexutil Ref.bls.
Local Open Scope Z_scope.

(** The aggregate signature and the public key of [main()], deserialized. *)
Definition aggPoint : scalar false :=
  match parsed_sig aggSig with Some s => s | None => zero end.

Definition pubPoint : scalar true :=
  match RandKey seed1 with inl k => k | inr _ => mkScalar true 1 eq_refl end.

(** The sum of the coefficients [i], ..., [i + n - 1] of a batch. *)
Definition coefficients (rnd : nat -> Z) (i n : nat) : Z :=
  fold_right (fun j acc => coefficient rnd j + acc) 0 (seq i n).

(** [x ^ e mod q] by repeated squaring; [x ^ (q - 2)] inverts [x] when [q]
    is prime. *)
Definition inverse (x : Z) : Z :=
  Pos.iter_op (fun a b => (a * b) mod q) (Z.to_pos (q - 2)) (x mod q).

Lemma coefficient_bounds (rnd : nat -> Z) (i : nat) : 1 <= coefficient rnd i < 2 ^ 64.
Proof.
  unfold coefficient.
  pose proof (Z.mod_pos_bound (rnd i) (2 ^ 64 - 1) eq_refl). lia.
Qed.

Lemma coefficients_bounds (rnd : nat -> Z) (n : nat) :
  forall i, Z.of_nat n <= coefficients rnd i n <= Z.of_nat n * 2 ^ 64.
Proof.
  unfold coefficients. induction n as [|n IH]; intros i.
  - simpl. lia.
  - cbn [seq fold_right]. specialize (IH (S i)).
    pose proof (coefficient_bounds rnd i). lia.
Qed.

Lemma batch_repeat (rnd : nat -> Z) (s : scalar false) (m : bytes) (p : scalar true)
    (n : nat) :
  forall i,
    batch rnd i (repeat s n) (repeat m n) (repeat p n) =
    (coefficients rnd i n * val s, coefficients rnd i n * (hash_to_curve m * val p)).
Proof.
  unfold coefficients. induction n as [|n IH]; intros i.
  - reflexivity.
  - cbn [repeat batch seq fold_right]. rewrite IH. cbn [fst snd]. f_equal; ring.
Qed.

Lemma uncompress_repeat (s : scalar false) (n : nat) :
  uncompress_all (repeat (marshal 96 s) n) = Some (repeat s n).
Proof.
  induction n as [|n IH]; [reflexivity|].
  cbn [repeat uncompress_all]. now rewrite sig_round_trip, IH.
Qed.

(** The batch check on [n] copies of one signature and one message. *)
Lemma VerifyMultipleSignatures_copies (rnd : nat -> Z) (s : scalar false) (m : bytes)
    (ps : list (scalar true)) (p : scalar true) (n : nat) :
  n <> O -> ps = repeat p n ->
  VerifyMultipleSignatures rnd (repeat (marshal 96 s) (List.length ps))
    (repeat m (List.length ps)) ps =
  ((coefficients rnd 0 n * val s) mod q
     =? (coefficients rnd 0 n * (hash_to_curve m * val p)) mod q, None).
Proof.
  intros Hn ->. rewrite repeat_length. unfold VerifyMultipleSignatures.
  rewrite !repeat_length, uncompress_repeat, Nat.eqb_refl.
  destruct n as [|n]; [congruence|].
  cbn [Nat.eqb orb andb negb]. now rewrite batch_repeat.
Qed.

(** A multiple of an invertible residue by less than [q] is not zero. *)
Lemma invertible_no_cancel (c a b w : Z) :
  0 < c < q -> ((a - b) * w) mod q = 1 -> (c * a) mod q <> (c * b) mod q.
Proof.
  intros Hc Hw E.
  assert (E0 : (c * (a - b)) mod q = 0).
  { rewrite Z.mul_sub_distr_l, Zminus_mod, E, Z.sub_diag. reflexivity. }
  assert (E1 : (c * (a - b) * w) mod q = 0).
  { rewrite <- Zmult_mod_idemp_l, E0. reflexivity. }
  rewrite <- Z.mul_assoc, <- Zmult_mod_idemp_r, Hw, Z.mul_1_r in E1.
  rewrite Z.mod_small in E1 by lia. lia.
Qed.

Lemma main_pubKeys_parse :
  Forall2 (fun h p => parsed_pk h = Some p) pubKeyHexes (repeat pubPoint 5).
Proof. repeat constructor. Qed.

(** One signer: the aggregate of one signature is that signature, and the
    batch of one triple accepts it. *)
Lemma single_signer_aggregate_verifies :
  AggregateSignatures [signature] = Returns (signature, None) /\
  forall rnd : nat -> Z, VerifyAggregateSignature rnd signature message [pubKey] = (true, None).
Proof.
  split; [vm_compute; reflexivity|]. intros rnd.
  assert (Hs : parsed_sig signature = Some (Sign pubPoint (encode message)))
    by (vm_compute; reflexivity).
  assert (Hp : Forall2 (fun h p => parsed_pk h = Some p) [pubKey] (repeat pubPoint 1))
    by (repeat constructor).
  rewrite (@VerifyAggregateSignature_ok Ref.hexutil Ref.bls
             rnd signature message [pubKey] _ _ Hs Hp).
  refine (eq_trans
            (f_equal foreign
               (VerifyMultipleSignatures_copies rnd _ (encode message)
                  (repeat pubPoint 1) pubPoint 1 _ eq_refl)) _);
    [discriminate|].
  unfold foreign, Sign. cbn [fst snd option_map]. f_equal.
  rewrite reduce_val, Zmult_mod_idemp_r, (Z.mul_comm (val pubPoint)). apply Z.eqb_refl.
Qed.

Lemma main_aggSig_parses : parsed_sig aggSig = Some aggPoint.
Proof. vm_compute. reflexivity. Qed.

Lemma main_difference_invertible :
  ((val aggPoint - hash_to_curve (encode message) * val pubPoint)
   * inverse (val aggPoint - hash_to_curve (encode message) * val pubPoint)) mod q = 1.
Proof. vm_compute. reflexivity. Qed.

(** C2, on the run of [main()].  The key pair, the signature of
    ["test message"] and the aggregate of five copies of it are as [main()]
    computes them, and the single signature verifies; but
    [VerifyAggregateSignature] of the aggregate against the five public keys
    returns [(false, nil)], whatever the random coefficients of the batch
    are: the library checks the aggregate as a signature of each single key,
    not of their sum. *)
Theorem main_aggregate_is_rejected :
  GenerateKeyPair seed1 = (privKey, pubKey, None) /\
  GenerateSignature privKey message = (signature, None) /\
  VerifySignature pubKey signature message = (true, None) /\
  AggregateSignatures sigHexes = Returns (aggSig, None) /\
  forall rnd : nat -> Z,
    VerifyAggregateSignature rnd aggSig message pubKeyHexes = (false, None).
Proof.
  split; [vm_compute; reflexivity|].
  split; [vm_compute; reflexivity|].
  split; [vm_compute; reflexivity|].
  split; [vm_compute; reflexivity|].
  intros rnd.
  rewrite (@VerifyAggregateSignature_ok Ref.hexutil Ref.bls
             rnd aggSig message pubKeyHexes
             aggPoint (repeat pubPoint 5) main_aggSig_parses main_pubKeys_parse).
  refine (eq_trans
            (f_equal foreign
               (VerifyMultipleSignatures_copies rnd aggPoint (encode message)
                  (repeat pubPoint 5) pubPoint 5 _ eq_refl)) _);
    [discriminate|].
  unfold foreign. cbn [fst snd option_map]. f_equal.
  apply Z.eqb_neq.
  apply invertible_no_cancel with (2 := main_difference_invertible).
  pose proof (coefficients_bounds rnd 5 0) as Hc.
  assert (Hq : 5 * 2 ^ 64 < q) by reflexivity.
  change (Z.of_nat 5) with 5 in Hc. lia.
Qed.

End MainRun.

(** ** The theorems at concrete inputs *)

Module Instances.
Import Scenario.
#[local] Existing Instances Ref.hexutil Ref.bls.

(** The keys and the signature of the scenario, deserialized. *)
Definition privPoint : Ref.scalar true :=
  match parsed_sk privKey with
  | Some k => k
  | None => Ref.mkScalar true 1 eq_refl
  end.

Definition pub2Point : Ref.scalar true :=
  match parsed_pk pubKey2 with
  | Some p => p
  | None => Ref.mkScalar true 1 eq_refl
  end.

Definition sigPoint : Ref.scalar false :=
  match parsed_sig signature with
  | Some s => s
  | None => Ref.zero
  end.

(** With no signature and with no public key: a panic and a verdict, and in
    neither case an error. *)
Lemma empty_input_counterexample :
  AggregateSignatures [] = Panics "invalid memory address or nil pointer dereference" /\
  VerifyAggregateSignature seed1 aggSig message [] = (false, None).
Proof. split; vm_compute; reflexivity. Qed.

(** No public key and a signature that is not hex: the verdict
    [(false, nil)]. *)
Lemma empty_key_list_returns_the_batch_result_witness :
  VerifyAggregateSignature seed1 "not hex" message33 [] = (false, None).
Proof.
  apply (proj2 (proj2 (@empty_key_list_returns_the_batch_result Ref.hexutil Ref.bls
                         seed1 "not hex" message33))).
  reflexivity.
Defined.

(** A 32-byte message passes the length check, a 33-byte one does not. *)
Lemma verify_message_length_boundary_witness :
  snd (VerifySignature pubKey signature message32) <> Some ErrInvalidMsgLength /\
  VerifySignature pubKey signature message33 = (false, Some ErrInvalidMsgLength).
Proof.
  split.
  - destruct (verify_message_length_boundary
                pubKey signature message32) as [H32 _].
    destruct (H32 eq_refl) as [Hne _]. exact Hne.
  - destruct (verify_message_length_boundary
                pubKey signature message33) as [_ H33].
    apply H33. apply Nat.leb_le. reflexivity.
Defined.

(** The signature of the first key does not verify under the second key:
    [(false, nil)]. *)
Lemma verify_false_is_not_an_error_witness :
  VerifySignature pubKey2 signature message = (false, None).
Proof.
  assert (Hlen : (List.length (bytes_of message) <= 32)%nat)
    by (apply Nat.leb_le; reflexivity).
  assert (Hs : parsed_sig signature = Some sigPoint)
    by (vm_compute; reflexivity).
  assert (Hp : parsed_pk pubKey2 = Some pub2Point)
    by (vm_compute; reflexivity).
  apply (proj2 (@verify_false_is_not_an_error Ref.hexutil Ref.bls
                  RefLaws.VerifySig_checks pubKey2 signature message
                  sigPoint pub2Point Hlen Hs Hp)).
  vm_compute. reflexivity.
Defined.

(** The key pair of the first seed signs and verifies ["test message"]. *)
Lemma sign_then_verify_succeeds_witness :
  GenerateKeyPair seed1 = (privKey, pubKey, None) /\
  snd (GenerateSignature privKey message) = None /\
  VerifySignature pubKey (fst (GenerateSignature privKey message)) message = (true, None).
Proof.
  assert (Hkp : GenerateKeyPair seed1 = (privKey, pubKey, None))
    by (vm_compute; reflexivity).
  assert (Hlen : (List.length (bytes_of message) <= 32)%nat)
    by (apply Nat.leb_le; reflexivity).
  split; [exact Hkp|].
  exact (@sign_then_verify_succeeds Ref.hexutil Ref.bls
           RefLaws.hex_round_trip RefLaws.sk_round_trip RefLaws.pk_round_trip
           RefLaws.sig_round_trip RefLaws.VerifySig_checks RefLaws.Sign_verifies
           seed1 privKey pubKey message Hkp Hlen).
Defined.


(** A 40-byte message is signed as its leading 32 bytes are. *)
Lemma signing_digest_is_left_aligned_witness :
  GenerateSignature privKey message40 = GenerateSignature privKey message32.
Proof.
  assert (Hk : parsed_sk privKey = Some privPoint)
    by (vm_compute; reflexivity).
  destruct (@signing_digest_is_left_aligned Ref.hexutil Ref.bls
              privKey message40 privPoint Hk) as [E40 _].
  destruct (@signing_digest_is_left_aligned Ref.hexutil Ref.bls
              privKey message32 privPoint Hk) as [E32 _].
  rewrite E40, E32.
  replace (encode message40) with (encode message32) by (vm_compute; reflexivity).
  reflexivity.
Defined.

(** A key that is not hex yields an error. *)
Lemma signing_fails_exactly_on_a_bad_key_witness :
  exists e, snd (GenerateSignature "zz" message) = Some e.
Proof.
  apply (proj2 (proj1 (@signing_fails_exactly_on_a_bad_key Ref.hexutil Ref.bls
                         "zz" message))).
  left. exists "hex string without 0x prefix". reflexivity.
Defined.

(** A 40-byte message is batch-checked as its leading 32 bytes are. *)
Lemma aggregate_verify_truncates_long_messages_witness :
  VerifyAggregateSignature seed2 aggSig message40 pubKeyHexes =
  VerifyAggregateSignature seed2 aggSig message32 pubKeyHexes.
Proof.
  assert (Hlen : (32 < List.length (bytes_of message40))%nat)
    by (apply Nat.ltb_lt; reflexivity).
  assert (Hne : pubKeyHexes <> []) by discriminate.
  destruct (@aggregate_verify_truncates_long_messages Ref.hexutil Ref.bls
              seed2 aggSig message40 pubKeyHexes MainRun.aggPoint
              (repeat MainRun.pubPoint 5) Hlen Hne
              MainRun.main_aggSig_parses MainRun.main_pubKeys_parse) as (_ & _ & E).
  change (leading 32 message40) with message32 in E. exact E.
Defined.

End Instances.

(** ** Further properties of the wrappers and of the two programs *)

Section FurtherProperties.
Context {HX : Hexutil} {B : BLS}.

(** *** The decoding loop of [AggregateSignatures] *)

Lemma parsed_sigs_app (l l' : list string) :
  parsed_sigs (l ++ l') = parsed_sigs l ++ parsed_sigs l'.
Proof. apply flat_map_app. Qed.

Lemma well_formed_or_not (l : list string) :
  Forall well_formed_sig l \/
  exists good bad rest,
    l = good ++ bad :: rest /\ Forall well_formed_sig good /\ parsed_sig bad = None.
Proof.
  induction l as [|h l IH].
  - left. constructor.
  - destruct (parsed_sig h) as [s|] eqn:Hh.
    + destruct IH as [IH|(good & bad & rest & -> & Hg & Hb)].
      * left. constructor; [unfold well_formed_sig; congruence|assumption].
      * right. exists (h :: good), bad, rest. repeat split; auto.
        constructor; [unfold well_formed_sig; congruence|assumption].
    + right. exists [], h, l. repeat split; auto.
Qed.

Lemma AggregateSignatures_loop_good_prefix (good l : list string) :
  Forall well_formed_sig good ->
  forall acc,
    AggregateSignatures_loop (good ++ l) acc =
    AggregateSignatures_loop l (acc ++ parsed_sigs good).
Proof.
  induction 1 as [|h good Hh _ IH]; intros acc; simpl.
  - now rewrite app_nil_r.
  - unfold well_formed_sig, parsed_sig in Hh. unfold parsed_sig.
    destruct (hexutil_Decode h) as [b|]; [|congruence].
    destruct (bls_SignatureFromBytes b) as [s|]; [|congruence].
    rewrite IH. simpl. now rewrite <- app_assoc.
Qed.

Lemma AggregateSignatures_loop_bad (bad : string) (rest : list string) :
  parsed_sig bad = None ->
  forall acc,
    exists e, AggregateSignatures_loop (bad :: rest) acc = inr e /\
              AggregateSignatures_loop [bad] [] = inr e.
Proof.
  intros Hb acc. unfold parsed_sig in Hb. simpl.
  destruct (hexutil_Decode bad) as [b|m]; [|eexists; split; reflexivity].
  destruct (bls_SignatureFromBytes b) as [s|m]; [discriminate|].
  eexists; split; reflexivity.
Qed.

Lemma AggregateSignatures_first_bad (good rest : list string) (bad : string) :
  Forall well_formed_sig good -> parsed_sig bad = None ->
  exists e, AggregateSignatures (good ++ bad :: rest) = Returns ("", Some e) /\
            AggregateSignatures [bad] = Returns ("", Some e).
Proof.
  intros Hg Hb. unfold AggregateSignatures.
  rewrite AggregateSignatures_loop_good_prefix by assumption.
  destruct (AggregateSignatures_loop_bad bad rest Hb ([] ++ parsed_sigs good))
    as (e & E1 & E2).
  exists e. now rewrite E1, E2.
Qed.

(** What [AggregateSignatures] returns when every string parses. *)
Lemma AggregateSignatures_well_formed (l : list string) :
  Forall well_formed_sig l ->
  AggregateSignatures l =
  match bls_AggregateSignatures (parsed_sigs l) with
  | None => Panics "invalid memory address or nil pointer dereference"
  | Some aggSig => Returns (hexutil_Encode (sig_Marshal aggSig), None)
  end.
Proof.
  intros Hwf. unfold AggregateSignatures.
  now rewrite AggregateSignatures_loop_ok by assumption.
Qed.

Lemma parsed_sigs_length (l : list string) :
  Forall well_formed_sig l -> List.length (parsed_sigs l) = List.length l.
Proof.
  induction 1 as [|h l Hh _ IH]; [reflexivity|].
  unfold well_formed_sig in Hh. simpl.
  destruct (parsed_sig h); [|congruence]. simpl. now rewrite IH.
Qed.

(** X7.  [AggregateSignatures] returns an error exactly when one of the
    strings fails to decode or to deserialize; the string it returns is then
    empty. *)
Theorem aggregate_error_iff_malformed :
  forall sigHexes : list string,
    ((exists r e, AggregateSignatures sigHexes = Returns (r, Some e)) <->
     Exists (fun h => parsed_sig h = None) sigHexes) /\
    (forall r e, AggregateSignatures sigHexes = Returns (r, Some e) -> r = "").
Proof.
  intros sigHexes.
  destruct (well_formed_or_not sigHexes) as [Hwf|(good & bad & rest & -> & Hg & Hb)].
  - rewrite (AggregateSignatures_well_formed _ Hwf). split; [split|].
    + intros (r & e & E). destruct (bls_AggregateSignatures _); discriminate.
    + intros Hex. apply Exists_exists in Hex as (h & Hin & Hh).
      rewrite Forall_forall in Hwf. now destruct (Hwf h Hin).
    + intros r e E. destruct (bls_AggregateSignatures _); discriminate.
  - destruct (AggregateSignatures_first_bad good rest bad Hg Hb) as (e & E & _).
    rewrite E. split; [split|].
    + intros _. apply Exists_app. right. now constructor.
    + intros _. now exists "", e.
    + intros r e' H. now injection H.
Qed.

(** X8.  The error of [AggregateSignatures] is that of the first malformed
    string: the well-formed strings before it and whatever follows it do not
    change the result. *)
Theorem aggregate_reports_first_malformed :
  forall (good rest : list string) (bad : string),
    Forall well_formed_sig good ->
    parsed_sig bad = None ->
    AggregateSignatures (good ++ bad :: rest) = AggregateSignatures [bad] /\
    exists e, AggregateSignatures [bad] = Returns ("", Some e).
Proof.
  intros good rest bad Hg Hb.
  destruct (AggregateSignatures_first_bad good rest bad Hg Hb) as (e & E1 & E2).
  split; [congruence|]. now exists e.
Qed.

(** *** The first loop of [VerifyAggregateSignature] *)

(** Every outcome of the loop: it succeeds when each key parses and, unless
    there is no key, the signature parses; otherwise it fails with an error
    built by [fmt.Errorf]. *)
Lemma VerifyAggregateSignature_loop_cases (aggregateSigHex msg : string) :
  forall pubKeyHexes st,
    match VerifyAggregateSignature_loop aggregateSigHex msg pubKeyHexes st with
    | inl st' =>
        exists pks,
          Forall2 (fun h p => parsed_pk h = Some p) pubKeyHexes pks /\
          (pubKeyHexes = [] \/ parsed_sig aggregateSigHex <> None) /\
          xMsgs st' = xMsgs st ++ repeat (encode msg) (List.length pks) /\
          xPKs st' = xPKs st ++ pks /\
          sigs st' =
            sigs st ++ match parsed_sig aggregateSigHex with
                       | Some s => repeat s (List.length pks)
                       | None => []
                       end
    | inr e =>
        pubKeyHexes <> [] /\
        (parsed_sig aggregateSigHex = None \/
         Exists (fun h => parsed_pk h = None) pubKeyHexes) /\
        exists format cause, e = Errorf format cause
    end.
Proof.
  induction pubKeyHexes as [|h rest IH]; intros st.
  - simpl. exists []. repeat split; auto; try now rewrite app_nil_r.
    destruct (parsed_sig aggregateSigHex); now rewrite app_nil_r.
  - cbn [VerifyAggregateSignature_loop].
    destruct (hexutil_Decode h) as [pb|m] eqn:Hh.
    2:{ split; [discriminate|]. split; [|eauto].
        right. constructor. unfold parsed_pk. now rewrite Hh. }
    destruct (bls_PublicKeyFromBytes pb) as [p|m] eqn:Hp.
    2:{ split; [discriminate|]. split; [|eauto].
        right. constructor. unfold parsed_pk. now rewrite Hh, Hp. }
    destruct (hexutil_Decode aggregateSigHex) as [sb|m] eqn:Hs.
    2:{ split; [discriminate|]. split; [|eauto].
        left. unfold parsed_sig. now rewrite Hs. }
    destruct (bls_SignatureFromBytes sb) as [s|m] eqn:Hsb.
    2:{ split; [discriminate|]. split; [|eauto].
        left. unfold parsed_sig. now rewrite Hs, Hsb. }
    assert (Hsig : parsed_sig aggregateSigHex = Some s)
      by (unfold parsed_sig; now rewrite Hs, Hsb).
    specialize (IH (mkAggState (xMsgs st ++ [copy zero32 (bytes_of msg)])
                               (xPKs st ++ [p]) (sigs st ++ [s]))).
    destruct (VerifyAggregateSignature_loop aggregateSigHex msg rest _) as [st'|e].
    + destruct IH as (pks & Hpks & _ & Hm & Hk & Hg).
      exists (p :: pks). rewrite Hsig in *. cbn [xMsgs xPKs sigs] in *.
      repeat split.
      * constructor; [|assumption]. unfold parsed_pk. now rewrite Hh, Hp.
      * right. discriminate.
      * rewrite Hm, copy_zero32_encode, <- app_assoc. reflexivity.
      * rewrite Hk, <- app_assoc. reflexivity.
      * rewrite Hg, <- app_assoc. reflexivity.
    + destruct IH as (_ & [Hbad|Hbad] & Herr).
      * congruence.
      * split; [discriminate|]. split; [|assumption]. right. now constructor 2.
Qed.

(** X6.  [VerifyAggregateSignature] reports a decoding error exactly when
    there is at least one public key and the signature or one of the keys
    fails to decode or to deserialize.  With no key a malformed signature is
    not noticed. *)
Theorem aggregate_verify_decoding_errors :
  forall (rnd : Entropy) (aggregateSigHex msg : string) (pubKeyHexes : list string),
    (exists format cause,
        snd (VerifyAggregateSignature rnd aggregateSigHex msg pubKeyHexes) =
        Some (Errorf format cause)) <->
    (pubKeyHexes <> [] /\
     (parsed_sig aggregateSigHex = None \/
      Exists (fun h => parsed_pk h = None) pubKeyHexes)).
Proof.
  intros rnd aggregateSigHex msg pubKeyHexes. unfold VerifyAggregateSignature.
  pose proof (VerifyAggregateSignature_loop_cases aggregateSigHex msg pubKeyHexes
                (mkAggState [] [] [])) as H.
  destruct (VerifyAggregateSignature_loop _ _ _ _) as [st|e].
  - destruct H as (pks & Hpks & Hsig & _). split.
    + intros (f & c & E). unfold foreign in E. simpl in E.
      destruct (snd (bls_VerifyMultipleSignatures _ _ _ _)); discriminate.
    + intros (Hne & [Hs|Hex]).
      * destruct Hsig; congruence.
      * exfalso. clear Hsig Hne. induction Hpks; inversion Hex; subst; auto; congruence.
  - destruct H as (Hne & Hbad & f & c & ->). split.
    + intros _. now split.
    + intros _. now exists f, c.
Qed.

(** X5.  [VerifyAggregateSignature] answers [true] for a non-empty key list
    only if the signature and every key parsed and the library's batch check
    answered [true] on one copy of the signature and of the digest per key. *)
Theorem aggregate_verify_true_means_batch_accepted :
  forall (rnd : Entropy) (aggregateSigHex msg : string) (pubKeyHexes : list string),
    pubKeyHexes <> [] ->
    fst (VerifyAggregateSignature rnd aggregateSigHex msg pubKeyHexes) = true ->
    exists s pks,
      parsed_sig aggregateSigHex = Some s /\
      Forall2 (fun h p => parsed_pk h = Some p) pubKeyHexes pks /\
      fst (bls_VerifyMultipleSignatures rnd
             (repeat (sig_Marshal s) (List.length pks))
             (repeat (encode msg) (List.length pks)) pks) = true.
Proof.
  intros rnd aggregateSigHex msg pubKeyHexes Hne Ht.
  pose proof (VerifyAggregateSignature_loop_cases aggregateSigHex msg pubKeyHexes
                (mkAggState [] [] [])) as H.
  destruct (VerifyAggregateSignature_loop _ _ _ _) as [st|e] eqn:E.
  - destruct H as (pks & Hpks & [Hnil|Hsig] & _); [congruence|].
    destruct (parsed_sig aggregateSigHex) as [s|] eqn:Hs; [|congruence].
    exists s, pks. repeat split; auto.
    rewrite (VerifyAggregateSignature_ok rnd aggregateSigHex msg pubKeyHexes s pks Hs Hpks)
      in Ht.
    exact Ht.
  - unfold VerifyAggregateSignature in Ht. rewrite E in Ht. discriminate.
Qed.

(** X4.  [VerifySignature] answers [true] only if the message has at most
    32 bytes, the signature hex-decoded, the public key parsed and the
    library's check answered [true] on the encoded message. *)
Theorem verify_true_means_check_accepted :
  forall (pubKeyHex sigHex msg : string),
    fst (VerifySignature pubKeyHex sigHex msg) = true ->
    (List.length (bytes_of msg) <= 32)%nat /\
    exists sigBytes pubKey,
      hexutil_Decode sigHex = inl sigBytes /\
      parsed_pk pubKeyHex = Some pubKey /\
      fst (bls_VerifySignature sigBytes (encode msg) pubKey) = true.
Proof.
  intros pubKeyHex sigHex msg Ht. unfold VerifySignature in Ht.
  destruct (Nat.ltb_spec 32 (List.length (bytes_of msg))) as [Hl|Hl]; [discriminate|].
  split; [assumption|]. unfold parsed_pk.
  destruct (hexutil_Decode sigHex) as [sb|]; [|discriminate].
  destruct (hexutil_Decode pubKeyHex) as [pb|]; [|discriminate].
  destruct (bls_PublicKeyFromBytes pb) as [p|]; [|discriminate].
  rewrite copy_zero32_encode in Ht. now exists sb, p.
Qed.

(** *** Messages with the same digest *)

Lemma encode_zero_padded (msg msg' : string) (k : nat) :
  bytes_of msg' = bytes_of msg ++ repeat x00 k ->
  (List.length (bytes_of msg') <= 32)%nat ->
  encode msg' = encode msg.
Proof.
  intros E Hlen. rewrite E, length_app, repeat_length in Hlen.
  rewrite (encode_short msg') by (rewrite E, length_app, repeat_length; lia).
  rewrite (encode_short msg) by lia.
  rewrite E, length_app, repeat_length, <- app_assoc, <- repeat_app.
  f_equal. f_equal. lia.
Qed.

(** X3.  A message of at most 32 bytes that ends in zero bytes is not told
    from the message without them: signing, single verification and
    aggregate verification give the same result for both. *)
Theorem trailing_zero_bytes_are_invisible :
  forall (msg msg' : string) (k : nat),
    bytes_of msg' = bytes_of msg ++ repeat x00 k ->
    (List.length (bytes_of msg') <= 32)%nat ->
    (forall privKeyHex, GenerateSignature privKeyHex msg' = GenerateSignature privKeyHex msg) /\
    (forall pubKeyHex sigHex,
        VerifySignature pubKeyHex sigHex msg' = VerifySignature pubKeyHex sigHex msg) /\
    (forall rnd aggregateSigHex pubKeyHexes,
        VerifyAggregateSignature rnd aggregateSigHex msg' pubKeyHexes =
        VerifyAggregateSignature rnd aggregateSigHex msg pubKeyHexes).
Proof.
  intros msg msg' k E Hlen.
  pose proof (encode_zero_padded msg msg' k E Hlen) as Henc.
  assert (Hlen0 : (List.length (bytes_of msg) <= 32)%nat).
  { rewrite E, length_app in Hlen. lia. }
  repeat split.
  - intros privKeyHex. unfold GenerateSignature.
    now rewrite !copy_zero32_encode, Henc.
  - intros pubKeyHex sigHex. unfold VerifySignature.
    replace (32 <? List.length (bytes_of msg'))%nat with false
      by (symmetry; apply Nat.ltb_ge; lia).
    replace (32 <? List.length (bytes_of msg))%nat with false
      by (symmetry; apply Nat.ltb_ge; lia).
    now rewrite !copy_zero32_encode, Henc.
  - intros rnd aggregateSigHex pubKeyHexes. unfold VerifyAggregateSignature.
    rewrite (VerifyAggregateSignature_loop_digest aggregateSigHex msg' msg);
      [reflexivity|].
    now rewrite !copy_zero32_encode.
Qed.

(** *** Under the contract of the collaborators *)

Section FurtherContract.

Hypothesis hex_round_trip : forall b : bytes, hexutil_Decode (hexutil_Encode b) = inl b.
Hypothesis sk_round_trip : forall k : SecretKey, bls_SecretKeyFromBytes (sk_Marshal k) = inl k.
Hypothesis pk_round_trip : forall p : PublicKey, bls_PublicKeyFromBytes (pk_Marshal p) = inl p.
Hypothesis sig_round_trip : forall s : Signature, bls_SignatureFromBytes (sig_Marshal s) = inl s.

Hypothesis VerifySignature_checks :
  forall (b msg : bytes) (s : Signature) (p : PublicKey),
    bls_SignatureFromBytes b = inl s ->
    bls_VerifySignature b msg p = (sig_Verify s p msg, None).

Hypothesis Sign_verifies :
  forall (k : SecretKey) (msg : bytes), sig_Verify (sk_Sign k msg) (sk_PublicKey k) msg = true.

(** [bls.AggregateSignatures] returns nil for the empty slice only. *)
Hypothesis Aggregate_nil_iff :
  forall l : list Signature, bls_AggregateSignatures l = None <-> l = [].

(** The aggregate of one signature is that signature. *)
Hypothesis Aggregate_one : forall s : Signature, bls_AggregateSignatures [s] = Some s.

(** Point addition is associative: an aggregate may stand for the
    signatures it was made of. *)
Hypothesis Aggregate_grouping :
  forall (l1 l2 : list Signature) (a : Signature),
    bls_AggregateSignatures l1 = Some a ->
    bls_AggregateSignatures (a :: l2) = bls_AggregateSignatures (l1 ++ l2).

(** [bls.VerifyMultipleSignatures] accepts a non-empty batch of triples
    (signature, message, public key) each of which verifies. *)
Hypothesis Batch_complete :
  forall (rnd : Entropy) (l : list (Signature * bytes * PublicKey)),
    l <> [] ->
    Forall (fun t => sig_Verify (fst (fst t)) (snd t) (snd (fst t)) = true) l ->
    bls_VerifyMultipleSignatures rnd
      (map (fun t => sig_Marshal (fst (fst t))) l)
      (map (fun t => snd (fst t)) l)
      (map snd l) = (true, None).

Lemma parsed_sk_encoded (k : SecretKey) : parsed_sk (hexutil_Encode (sk_Marshal k)) = Some k.
Proof using hex_round_trip sk_round_trip.
  unfold parsed_sk. now rewrite hex_round_trip, sk_round_trip.
Qed.

Lemma parsed_pk_encoded (p : PublicKey) : parsed_pk (hexutil_Encode (pk_Marshal p)) = Some p.
Proof using hex_round_trip pk_round_trip.
  unfold parsed_pk. now rewrite hex_round_trip, pk_round_trip.
Qed.

Lemma parsed_sig_encoded (s : Signature) : parsed_sig (hexutil_Encode (sig_Marshal s)) = Some s.
Proof using hex_round_trip sig_round_trip.
  unfold parsed_sig. now rewrite hex_round_trip, sig_round_trip.
Qed.

Lemma GenerateKeyPair_success (rnd : Entropy) (skHex pkHex : string) :
  GenerateKeyPair rnd = (skHex, pkHex, None) ->
  exists k, bls_RandKey rnd = inl k /\
            skHex = hexutil_Encode (sk_Marshal k) /\
            pkHex = hexutil_Encode (pk_Marshal (sk_PublicKey k)).
Proof using Type.
  unfold GenerateKeyPair. destruct (bls_RandKey rnd) as [k|]; [|discriminate].
  intros H. injection H as <- <-. now exists k.
Qed.

Lemma GenerateSignature_encoded (k : SecretKey) (msg : string) :
  GenerateSignature (hexutil_Encode (sk_Marshal k)) msg =
  (hexutil_Encode (sig_Marshal (sk_Sign k (encode msg))), None).
Proof using hex_round_trip sk_round_trip.
  unfold GenerateSignature.
  now rewrite hex_round_trip, sk_round_trip, copy_zero32_encode.
Qed.

Lemma VerifySignature_parsed (pubKeyHex sigHex msg : string) (s : Signature) (p : PublicKey) :
  (List.length (bytes_of msg) <= 32)%nat ->
  parsed_sig sigHex = Some s -> parsed_pk pubKeyHex = Some p ->
  VerifySignature pubKeyHex sigHex msg = (sig_Verify s p (encode msg), None).
Proof using VerifySignature_checks.
  intros Hlen Hs Hp. unfold VerifySignature.
  replace (32 <? List.length (bytes_of msg))%nat with false
    by (symmetry; apply Nat.ltb_ge; lia).
  unfold parsed_sig in Hs. unfold parsed_pk in Hp.
  destruct (hexutil_Decode sigHex) as [sb|]; [|discriminate].
  destruct (bls_SignatureFromBytes sb) as [s'|] eqn:Hsb; [|discriminate].
  injection Hs as ->.
  destruct (hexutil_Decode pubKeyHex) as [pb|]; [|discriminate].
  destruct (bls_PublicKeyFromBytes pb) as [p'|]; [|discriminate].
  injection Hp as ->.
  now rewrite copy_zero32_encode, (VerifySignature_checks _ _ _ _ Hsb).
Qed.

Lemma map_const_repeat {A C : Type} (c : C) (l : list A) :
  map (fun _ => c) l = repeat c (List.length l).
Proof. induction l as [|x l IH]; simpl; [reflexivity|now rewrite IH]. Qed.

Lemma VerifyAggregateSignature_each_valid (rnd : Entropy) (aggregateSigHex msg : string)
    (pubKeyHexes : list string) (s : Signature) (pks : list PublicKey) :
  pubKeyHexes <> [] ->
  parsed_sig aggregateSigHex = Some s ->
  Forall2 (fun h p => parsed_pk h = Some p) pubKeyHexes pks ->
  Forall (fun p => sig_Verify s p (encode msg) = true) pks ->
  VerifyAggregateSignature rnd aggregateSigHex msg pubKeyHexes = (true, None).
Proof using Batch_complete.
  intros Hne Hs Hpks Hall.
  rewrite (VerifyAggregateSignature_ok rnd aggregateSigHex msg pubKeyHexes s pks Hs Hpks).
  pose proof (Batch_complete rnd (map (fun p => (s, encode msg, p)) pks)) as H.
  rewrite !map_map in H. cbn [fst snd] in H.
  rewrite !map_const_repeat, map_id in H.
  rewrite H; [reflexivity| |].
  - destruct Hpks; [congruence|discriminate].
  - apply Forall_map. exact Hall.
Qed.

(** X1.  The two strings [GenerateKeyPair] returns belong together: the
    first parses as a secret key and the second as the public key of that
    secret key. *)
Theorem key_pair_round_trip :
  forall (rnd : Entropy) (skHex pkHex : string),
    GenerateKeyPair rnd = (skHex, pkHex, None) ->
    exists k, bls_RandKey rnd = inl k /\
              parsed_sk skHex = Some k /\
              parsed_pk pkHex = Some (sk_PublicKey k).
Proof using hex_round_trip sk_round_trip pk_round_trip.
  intros rnd skHex pkHex H.
  destruct (GenerateKeyPair_success rnd skHex pkHex H) as (k & Hk & -> & ->).
  exists k. repeat split; auto using parsed_sk_encoded, parsed_pk_encoded.
Qed.

(** X2.  A message of more than 32 bytes can be signed, but
    [VerifySignature] does not verify the signature with that message (it
    is the length error); it verifies it with the leading 32 bytes of the
    message. *)
Theorem long_message_signs_but_does_not_verify :
  forall (rnd : Entropy) (skHex pkHex msg : string),
    GenerateKeyPair rnd = (skHex, pkHex, None) ->
    (32 < List.length (bytes_of msg))%nat ->
    exists sigHex,
      GenerateSignature skHex msg = (sigHex, None) /\
      VerifySignature pkHex sigHex msg = (false, Some ErrInvalidMsgLength) /\
      VerifySignature pkHex sigHex (leading 32 msg) = (true, None).
Proof using hex_round_trip sk_round_trip pk_round_trip sig_round_trip
            VerifySignature_checks Sign_verifies.
  intros rnd skHex pkHex msg H Hlen.
  destruct (GenerateKeyPair_success rnd skHex pkHex H) as (k & Hk & -> & ->).
  eexists. split; [apply GenerateSignature_encoded|]. split.
  - unfold VerifySignature.
    replace (32 <? List.length (bytes_of msg))%nat with true
      by (symmetry; apply Nat.ltb_lt; lia).
    reflexivity.
  - rewrite (VerifySignature_parsed _ _ (leading 32 msg)
               (sk_Sign k (encode msg)) (sk_PublicKey k)).
    + now rewrite encode_leading, Sign_verifies.
    + rewrite bytes_of_leading, length_firstn. lia.
    + apply parsed_sig_encoded.
    + apply parsed_pk_encoded.
Qed.

(** X9.  [AggregateSignatures] panics for the empty slice and for no other
    input. *)
Theorem aggregate_panics_exactly_on_empty :
  forall sigHexes : list string,
    (exists why, AggregateSignatures sigHexes = Panics why) <-> sigHexes = [].
Proof using Aggregate_nil_iff.
  intros sigHexes. split.
  - intros (why & E).
    destruct (well_formed_or_not sigHexes) as [Hwf|(good & bad & rest & -> & Hg & Hb)].
    + rewrite (AggregateSignatures_well_formed _ Hwf) in E.
      destruct (bls_AggregateSignatures (parsed_sigs sigHexes)) eqn:Ha; [discriminate|].
      apply Aggregate_nil_iff in Ha.
      apply (f_equal (@List.length _)) in Ha. rewrite parsed_sigs_length in Ha by assumption.
      now destruct sigHexes.
    + destruct (AggregateSignatures_first_bad good rest bad Hg Hb) as (e & E' & _).
      congruence.
  - intros ->. unfold AggregateSignatures. simpl.
    replace (bls_AggregateSignatures []) with (@None Signature)
      by (symmetry; now apply Aggregate_nil_iff).
    eexists. reflexivity.
Qed.

(** X10.  The string [AggregateSignatures] returns is a well-formed
    signature itself: it parses to the aggregate of the signatures the input
    strings parse to. *)
Theorem aggregate_output_parses :
  forall (sigHexes : list string) (aggSig : string),
    AggregateSignatures sigHexes = Returns (aggSig, None) ->
    Forall well_formed_sig sigHexes /\
    exists a, bls_AggregateSignatures (parsed_sigs sigHexes) = Some a /\
              parsed_sig aggSig = Some a.
Proof using hex_round_trip sig_round_trip.
  intros sigHexes aggSig E.
  destruct (well_formed_or_not sigHexes) as [Hwf|(good & bad & rest & -> & Hg & Hb)].
  - split; [assumption|]. rewrite (AggregateSignatures_well_formed _ Hwf) in E.
    destruct (bls_AggregateSignatures (parsed_sigs sigHexes)) as [a|]; [|discriminate].
    injection E as <-. exists a. split; [reflexivity|apply parsed_sig_encoded].
  - destruct (AggregateSignatures_first_bad good rest bad Hg Hb) as (e & E' & _).
    congruence.
Qed.

(** X11.  Aggregation groups: the aggregate of some signatures, put in front
    of further signatures, aggregates to what all of them aggregate to. *)
Theorem aggregation_groups :
  forall (l1 l2 : list string) (aggSig : string),
    AggregateSignatures l1 = Returns (aggSig, None) ->
    Forall well_formed_sig l2 ->
    AggregateSignatures (aggSig :: l2) = AggregateSignatures (l1 ++ l2).
Proof using hex_round_trip sig_round_trip Aggregate_grouping.
  intros l1 l2 aggSig E Hwf2.
  destruct (well_formed_or_not l1) as [Hwf1|(good & bad & rest & -> & Hg & Hb)].
  - rewrite (AggregateSignatures_well_formed _ Hwf1) in E.
    destruct (bls_AggregateSignatures (parsed_sigs l1)) as [a|] eqn:Ha; [|discriminate].
    injection E as <-.
    assert (Hh : well_formed_sig (hexutil_Encode (sig_Marshal a)))
      by (unfold well_formed_sig; rewrite parsed_sig_encoded; discriminate).
    rewrite !AggregateSignatures_well_formed
      by (try apply Forall_app; try constructor; auto).
    rewrite parsed_sigs_app. simpl. rewrite parsed_sig_encoded. simpl.
    now rewrite (Aggregate_grouping _ _ _ Ha).
  - destruct (AggregateSignatures_first_bad good rest bad Hg Hb) as (e & E' & _).
    congruence.
Qed.

(** X12.  What [VerifyAggregateSignature] accepts: a signature that verifies
    under each of the public keys on its own (for the digest of the message)
    gives [(true, nil)]. *)
Theorem aggregate_verify_accepts_per_key_validity :
  forall (rnd : Entropy) (aggregateSigHex msg : string) (pubKeyHexes : list string)
         (s : Signature) (pks : list PublicKey),
    pubKeyHexes <> [] ->
    parsed_sig aggregateSigHex = Some s ->
    Forall2 (fun h p => parsed_pk h = Some p) pubKeyHexes pks ->
    Forall (fun p => sig_Verify s p (encode msg) = true) pks ->
    VerifyAggregateSignature rnd aggregateSigHex msg pubKeyHexes = (true, None).
Proof using Batch_complete.
  intros. eapply VerifyAggregateSignature_each_valid; eassumption.
Qed.

(** X13.  One signer, any message length: the signature of a message under
    a generated key, aggregated alone, is accepted by
    [VerifyAggregateSignature] with the same message and the public key. *)
Theorem one_signer_aggregate_verifies :
  forall (rndKey rnd : Entropy) (skHex pkHex msg : string),
    GenerateKeyPair rndKey = (skHex, pkHex, None) ->
    exists sigHex aggSig,
      GenerateSignature skHex msg = (sigHex, None) /\
      AggregateSignatures [sigHex] = Returns (aggSig, None) /\
      VerifyAggregateSignature rnd aggSig msg [pkHex] = (true, None).
Proof using hex_round_trip sk_round_trip pk_round_trip sig_round_trip
            Sign_verifies Aggregate_one Batch_complete.
  intros rndKey rnd skHex pkHex msg H.
  destruct (GenerateKeyPair_success rndKey skHex pkHex H) as (k & Hk & -> & ->).
  exists (hexutil_Encode (sig_Marshal (sk_Sign k (encode msg)))),
         (hexutil_Encode (sig_Marshal (sk_Sign k (encode msg)))).
  split; [apply GenerateSignature_encoded|]. split.
  - rewrite AggregateSignatures_well_formed.
    + simpl. rewrite parsed_sig_encoded. simpl. now rewrite Aggregate_one.
    + constructor; [|constructor].
      unfold well_formed_sig. rewrite parsed_sig_encoded. discriminate.
  - eapply VerifyAggregateSignature_each_valid.
    + discriminate.
    + apply parsed_sig_encoded.
    + constructor; [apply parsed_pk_encoded|constructor].
    + constructor; [apply Sign_verifies|constructor].
Qed.

(** *** The programs *)

Lemma copy_same_length (dst src : bytes) :
  List.length src = List.length dst -> copy dst src = src.
Proof using Type.
  intros H. unfold copy. rewrite <- H, firstn_all, skipn_all2 by lia. apply app_nil_r.
Qed.

Lemma related_rounds (sk : SecretKey) (l : list nat) :
  forall st,
    fold_left (related_round sk) l st =
    (fst st ++ map (fun i => encode (Sprintf_Hello_BLS i)) l,
     snd st ++ map (fun i => sk_Sign sk (encode (Sprintf_Hello_BLS i))) l).
Proof using Type.
  induction l as [|i l IH]; intros [ms ss]; simpl.
  - now rewrite !app_nil_r.
  - rewrite IH. unfold related_round. cbn [fst snd].
    rewrite copy_zero32_encode, copy_same_length
      by (rewrite encode_length, repeat_length; reflexivity).
    now rewrite <- !app_assoc.
Qed.

Lemma related_second_loop (pk : PublicKey) (l : list Signature) :
  forall st : list bytes * list PublicKey,
    fold_left (fun st2 sig => (fst st2 ++ [sig_Marshal sig], snd st2 ++ [pk])) l st =
    (fst st ++ map sig_Marshal l, snd st ++ map (fun _ => pk) l).
Proof using Type.
  induction l as [|s l IH]; intros [bs ps]; simpl.
  - now rewrite !app_nil_r.
  - rewrite IH. cbn [fst snd]. now rewrite <- !app_assoc.
Qed.

(** X14.  When key generation succeeds, [main()] prints no error up to the
    aggregate check and does not panic: the key pair, the signature of
    ["test message"], [Signature valid: true], the aggregate of five copies
    of the signature, and then what the library's batch check makes of five
    copies of that aggregate. *)
Theorem main_prints_a_valid_signature :
  forall (rndKey rndBatch : Entropy) (sk : SecretKey),
    bls_RandKey rndKey = inl sk ->
    exists agg,
      bls_AggregateSignatures (repeat (sk_Sign sk (encode "test message")) 5) = Some agg /\
      main rndKey rndBatch =
      ([[VString "Private Key:"; VString (hexutil_Encode (sk_Marshal sk))];
        [VString "Public Key:"; VString (hexutil_Encode (pk_Marshal (sk_PublicKey sk)))];
        [VString "Signature:";
         VString (hexutil_Encode (sig_Marshal (sk_Sign sk (encode "test message"))))];
        [VString "Signature valid:"; VBool true];
        [VString "Aggregate Signature:"; VString (hexutil_Encode (sig_Marshal agg))];
        match bls_VerifyMultipleSignatures rndBatch
                (repeat (sig_Marshal agg) 5)
                (repeat (encode "test message") 5)
                (repeat (sk_PublicKey sk) 5) with
        | (_, Some err) =>
            [VString "Error verifying aggregate signature:"; VError (Foreign err)]
        | (valid, None) => [VString "Aggregate signature valid:"; VBool valid]
        end],
       None).
Proof using hex_round_trip sk_round_trip pk_round_trip sig_round_trip
            VerifySignature_checks Sign_verifies Aggregate_nil_iff.
  intros rndKey rndBatch sk Hk.
  set (m := "test message").
  set (sg := sk_Sign sk (encode m)).
  destruct (bls_AggregateSignatures (repeat sg 5)) as [agg|] eqn:Ha.
  2:{ apply Aggregate_nil_iff in Ha. discriminate. }
  exists agg. split; [reflexivity|].
  unfold main, GenerateKeyPair. rewrite Hk. fold m.
  rewrite (GenerateSignature_encoded sk m). fold sg.
  rewrite (VerifySignature_parsed _ _ m sg (sk_PublicKey sk))
    by (first [apply Nat.leb_le; reflexivity
              |apply parsed_sig_encoded|apply parsed_pk_encoded]).
  replace (sig_Verify sg (sk_PublicKey sk) (encode m)) with true
    by (symmetry; apply Sign_verifies).
  cbn [Nat.iter nat_rect fst snd app].
  assert (Hwf : well_formed_sig (hexutil_Encode (sig_Marshal sg)))
    by (unfold well_formed_sig; rewrite parsed_sig_encoded; discriminate).
  rewrite AggregateSignatures_well_formed by (repeat constructor; exact Hwf).
  cbn [parsed_sigs flat_map]. rewrite !parsed_sig_encoded. cbn [app].
  change [sg; sg; sg; sg; sg] with (repeat sg 5). rewrite Ha.
  rewrite (VerifyAggregateSignature_ok rndBatch _ m _ agg (repeat (sk_PublicKey sk) 5))
    by (first [apply parsed_sig_encoded | repeat constructor; apply parsed_pk_encoded]).
  rewrite repeat_length. unfold foreign.
  destruct (bls_VerifyMultipleSignatures rndBatch _ _ _) as [v [err|]]; reflexivity.
Qed.

(** X15.  When key generation succeeds, the second program prints the
    aggregate of its ten signatures, the digest of ["Hello BLS 0"], and
    [true] for both verifications: each signature is batch-checked with its
    own message. *)
Theorem main_related_batch_is_accepted :
  forall (rndKey rndBatch : Entropy) (sk : SecretKey),
    bls_RandKey rndKey = inl sk ->
    exists agg,
      bls_AggregateSignatures
        (map (fun i => sk_Sign sk (encode (Sprintf_Hello_BLS i))) (seq 0 10)) = Some agg /\
      main_related rndKey rndBatch =
      ([[VString "aggregated sig:"; VString (hexutil_Encode (sig_Marshal agg))];
        [VString "outer msg:"; VArray (encode "Hello BLS 0")];
        [VString "Verification result for one sig:"; VBool true];
        [VString "Verification result for multiple sig:"; VBool true]],
       None).
Proof using sig_round_trip VerifySignature_checks Sign_verifies Aggregate_nil_iff
            Batch_complete.
  intros rndKey rndBatch sk Hk.
  set (d := fun i => encode (Sprintf_Hello_BLS i)).
  set (f := fun i => sk_Sign sk (d i)).
  destruct (bls_AggregateSignatures (map f (seq 0 10))) as [agg|] eqn:Ha.
  2:{ apply Aggregate_nil_iff in Ha. discriminate. }
  exists agg. split; [exact Ha|].
  unfold main_related. rewrite Hk, related_rounds. cbn [fst snd app].
  change (map (fun i => sk_Sign sk (encode (Sprintf_Hello_BLS i))) (seq 0 10))
    with (map f (seq 0 10)).
  change (map (fun i => encode (Sprintf_Hello_BLS i)) (seq 0 10)) with (map d (seq 0 10)).
  rewrite Ha.
  rewrite copy_zero32_encode.
  change (seq 0 10) with (0%nat :: seq 1 9) at 1. cbn [map].
  change (encode "Hello BLS 0") with (d 0%nat).
  rewrite (VerifySignature_checks _ (d 0%nat) _ _ (sig_round_trip (f 0%nat))).
  replace (sig_Verify (f 0%nat) (sk_PublicKey sk) (d 0%nat)) with true
    by (symmetry; apply Sign_verifies).
  change (f 0%nat :: map f (seq 1 9)) with (map f (seq 0 10)).
  rewrite related_second_loop. cbn [fst snd app].
  assert (Hb : bls_VerifyMultipleSignatures rndBatch
                 (map sig_Marshal (map f (seq 0 10)))
                 (map d (seq 0 10))
                 (map (fun _ => sk_PublicKey sk) (map f (seq 0 10))) = (true, None)).
  { rewrite <- (Batch_complete rndBatch
                  (map (fun i => (f i, d i, sk_PublicKey sk)) (seq 0 10))).
    - rewrite !map_map. reflexivity.
    - discriminate.
    - apply Forall_map, Forall_forall. intros i _. cbn [fst snd]. apply Sign_verifies. }
  rewrite Hb. reflexivity.
Qed.

End FurtherContract.

End FurtherProperties.

(** ** The reference implementation meets the further contract *)

Module RefBatch.
Import Ref RefLaws.
Local Open Scope Z_scope.

Lemma Aggregate_nil_iff (l : list (scalar false)) : Aggregate l = None <-> l = [].
Proof. destruct l; simpl; split; congruence. Qed.

Lemma Aggregate_one (s : scalar false) : Aggregate [s] = Some s.
Proof. reflexivity. Qed.

Lemma total_app (l l' : list (scalar false)) : total (l ++ l') = total l + total l'.
Proof. induction l as [|s l IH]; simpl; lia. Qed.

Lemma Aggregate_grouping (l1 l2 : list (scalar false)) (a : scalar false) :
  Aggregate l1 = Some a -> Aggregate (a :: l2) = Aggregate (l1 ++ l2).
Proof.
  rewrite !Aggregate_total. destruct l1 as [|s l1]; [discriminate|].
  intros H. injection H as <-. cbn [app]. f_equal. apply scalar_eq.
  rewrite !reduce_val. change (s :: l1 ++ l2) with ((s :: l1) ++ l2).
  rewrite total_app. cbn [total fold_right]. fold (total l2).
  rewrite reduce_val. apply Zplus_mod_idemp_l.
Qed.

Lemma uncompress_marshalled (l : list (scalar false * bytes * scalar true)) :
  uncompress_all (map (fun t => marshal 96 (fst (fst t))) l) = Some (map (fun t => fst (fst t)) l).
Proof.
  induction l as [|t l IH]; [reflexivity|].
  cbn [map uncompress_all]. now rewrite sig_round_trip, IH.
Qed.

(** Both sides of the batch equation agree modulo [q] when every triple
    verifies. *)
Lemma batch_valid (rnd : nat -> Z) (l : list (scalar false * bytes * scalar true)) :
  Forall (fun t => Verify (fst (fst t)) (snd t) (snd (fst t)) = true) l ->
  forall i,
    fst (batch rnd i (map (fun t => fst (fst t)) l) (map (fun t => snd (fst t)) l)
           (map snd l)) mod q =
    snd (batch rnd i (map (fun t => fst (fst t)) l) (map (fun t => snd (fst t)) l)
           (map snd l)) mod q.
Proof.
  induction 1 as [|[[s m] p] l Hv _ IH]; intros i; [reflexivity|].
  cbn [map batch fst snd]. cbn [fst snd] in Hv.
  unfold Verify in Hv. apply Z.eqb_eq in Hv.
  rewrite Z.add_mod, (Z.add_mod (_ * (_ * _))), IH by (pose proof q_pos; lia).
  f_equal. f_equal. rewrite Hv. apply Zmult_mod_idemp_r.
Qed.

Lemma Batch_complete (rnd : nat -> Z) (l : list (scalar false * bytes * scalar true)) :
  l <> [] ->
  Forall (fun t => Verify (fst (fst t)) (snd t) (snd (fst t)) = true) l ->
  VerifyMultipleSignatures rnd
    (map (fun t => marshal 96 (fst (fst t))) l)
    (map (fun t => snd (fst t)) l)
    (map snd l) = (true, None).
Proof.
  intros Hne Hall. unfold VerifyMultipleSignatures.
  rewrite !length_map, Nat.eqb_refl, uncompress_marshalled.
  destruct l as [|t l]; [congruence|].
  cbn [List.length Nat.eqb orb andb negb].
  f_equal. apply Z.eqb_eq. now apply batch_valid.
Qed.

End RefBatch.

(** ** The further theorems at concrete inputs *)

Module FurtherInstances.
Import Scenario.
#[local] Existing Instances Ref.hexutil Ref.bls.

(** ["test message"] followed by two zero bytes. *)
Definition message_padded : string :=
  message ++ String Ascii.zero (String Ascii.zero EmptyString).

(** The aggregate of the two signatures of the scenario. *)
Definition aggSig12 : string :=
  Eval vm_compute in
    match AggregateSignatures [signature; signature2] with
    | Returns (h, _) => h
    | Panics _ => ""
    end.

Lemma seed1_key_pair : GenerateKeyPair seed1 = (privKey, pubKey, None).
Proof. vm_compute. reflexivity. Qed.

Lemma key_pair_round_trip_witness :
  exists k, Ref.RandKey seed1 = inl k /\
            parsed_sk privKey = Some k /\ parsed_pk pubKey = Some k.
Proof.
  exact (@key_pair_round_trip Ref.hexutil Ref.bls
           RefLaws.hex_round_trip RefLaws.sk_round_trip RefLaws.pk_round_trip
           seed1 privKey pubKey seed1_key_pair).
Defined.

Lemma long_message_signs_but_does_not_verify_witness :
  exists sigHex,
    GenerateSignature privKey message40 = (sigHex, None) /\
    VerifySignature pubKey sigHex message40 = (false, Some ErrInvalidMsgLength) /\
    VerifySignature pubKey sigHex message32 = (true, None).
Proof.
  assert (Hlen : (32 < List.length (bytes_of message40))%nat)
    by (apply Nat.ltb_lt; reflexivity).
  exact (@long_message_signs_but_does_not_verify Ref.hexutil Ref.bls
           RefLaws.hex_round_trip RefLaws.sk_round_trip RefLaws.pk_round_trip
           RefLaws.sig_round_trip RefLaws.VerifySig_checks RefLaws.Sign_verifies
           seed1 privKey pubKey message40 seed1_key_pair Hlen).
Defined.

Lemma trailing_zero_bytes_are_invisible_witness :
  VerifySignature pubKey signature message_padded = (true, None).
Proof.
  assert (Hlen : (List.length (bytes_of message_padded) <= 32)%nat)
    by (apply Nat.leb_le; reflexivity).
  destruct (@trailing_zero_bytes_are_invisible Ref.hexutil Ref.bls
              message message_padded 2 eq_refl Hlen) as (_ & Hv & _).
  rewrite Hv. vm_compute. reflexivity.
Defined.

Lemma verify_true_means_check_accepted_witness :
  (List.length (bytes_of message) <= 32)%nat /\
  exists sigBytes pubKey',
    Ref.Decode signature = inl sigBytes /\
    parsed_pk pubKey = Some pubKey' /\
    fst (Ref.VerifySig sigBytes (encode message) pubKey') = true.
Proof.
  apply (@verify_true_means_check_accepted Ref.hexutil Ref.bls pubKey signature message).
  vm_compute. reflexivity.
Defined.

Lemma aggregate_verify_true_means_batch_accepted_witness :
  exists s pks,
    parsed_sig signature = Some s /\
    Forall2 (fun h p => parsed_pk h = Some p) [pubKey] pks /\
    fst (Ref.VerifyMultipleSignatures seed2
           (repeat (Ref.marshal 96 s) (List.length pks))
           (repeat (encode message) (List.length pks)) pks) = true.
Proof.
  apply (@aggregate_verify_true_means_batch_accepted Ref.hexutil Ref.bls
           seed2 signature message [pubKey]).
  - discriminate.
  - now rewrite (proj2 MainRun.single_signer_aggregate_verifies seed2).
Defined.

Lemma aggregate_reports_first_malformed_witness :
  AggregateSignatures [signature; "zz"; signature2] = AggregateSignatures ["zz"] /\
  exists e, AggregateSignatures ["zz"] = Returns ("", Some e).
Proof.
  apply (@aggregate_reports_first_malformed Ref.hexutil Ref.bls
           [signature] [signature2] "zz").
  - repeat constructor. vm_compute. discriminate.
  - reflexivity.
Defined.

Lemma aggregate_panics_exactly_on_empty_witness :
  (exists why, AggregateSignatures [signature; signature2] = Panics why) <->
  [signature; signature2] = [].
Proof.
  exact (@aggregate_panics_exactly_on_empty Ref.hexutil Ref.bls
           RefBatch.Aggregate_nil_iff [signature; signature2]).
Defined.

Lemma aggregate_output_parses_witness :
  Forall well_formed_sig sigHexes /\
  exists a, Ref.Aggregate (parsed_sigs sigHexes) = Some a /\ parsed_sig aggSig = Some a.
Proof.
  assert (H : AggregateSignatures sigHexes = Returns (aggSig, None))
    by (vm_compute; reflexivity).
  exact (@aggregate_output_parses Ref.hexutil Ref.bls
           RefLaws.hex_round_trip RefLaws.sig_round_trip sigHexes aggSig H).
Defined.

Lemma aggregation_groups_witness :
  AggregateSignatures [aggSig12; signature] =
  AggregateSignatures [signature; signature2; signature].
Proof.
  assert (H : AggregateSignatures [signature; signature2] = Returns (aggSig12, None))
    by (vm_compute; reflexivity).
  assert (Hwf : Forall well_formed_sig [signature])
    by (repeat constructor; vm_compute; discriminate).
  exact (@aggregation_groups Ref.hexutil Ref.bls
           RefLaws.hex_round_trip RefLaws.sig_round_trip RefBatch.Aggregate_grouping
           [signature; signature2] [signature] aggSig12 H Hwf).
Defined.

(** Three copies of one key with the plain signature of that key. *)
Lemma aggregate_verify_accepts_per_key_validity_witness :
  VerifyAggregateSignature seed2 signature message [pubKey; pubKey; pubKey] = (true, None).
Proof.
  assert (Hs : parsed_sig signature = Some Instances.sigPoint)
    by (vm_compute; reflexivity).
  assert (Hp : Forall2 (fun h p => parsed_pk h = Some p)
                 [pubKey; pubKey; pubKey] (repeat MainRun.pubPoint 3))
    by (repeat constructor).
  assert (Hv : Forall (fun p => Ref.Verify Instances.sigPoint p (encode message) = true)
                 (repeat MainRun.pubPoint 3))
    by (repeat constructor; vm_compute; reflexivity).
  assert (Hne : [pubKey; pubKey; pubKey] <> []) by discriminate.
  exact (@aggregate_verify_accepts_per_key_validity Ref.hexutil Ref.bls
           RefBatch.Batch_complete seed2 signature message [pubKey; pubKey; pubKey]
           Instances.sigPoint (repeat MainRun.pubPoint 3) Hne Hs Hp Hv).
Defined.

Lemma one_signer_aggregate_verifies_witness :
  exists sigHex aggSig',
    GenerateSignature privKey message40 = (sigHex, None) /\
    AggregateSignatures [sigHex] = Returns (aggSig', None) /\
    VerifyAggregateSignature seed2 aggSig' message40 [pubKey] = (true, None).
Proof.
  exact (@one_signer_aggregate_verifies Ref.hexutil Ref.bls
           RefLaws.hex_round_trip RefLaws.sk_round_trip RefLaws.pk_round_trip
           RefLaws.sig_round_trip RefLaws.Sign_verifies RefBatch.Aggregate_one
           RefBatch.Batch_complete seed1 seed2 privKey pubKey message40 seed1_key_pair).
Defined.

(** The run of [main()] on the two seeds: no panic, and the fourth line. *)
Lemma main_prints_a_valid_signature_witness :
  snd (main seed1 seed2) = None /\
  nth 3 (fst (main seed1 seed2)) [] = [VString "Signature valid:"; VBool true].
Proof.
  assert (Hk : Ref.RandKey seed1 = inl MainRun.pubPoint) by (vm_compute; reflexivity).
  destruct (@main_prints_a_valid_signature Ref.hexutil Ref.bls
              RefLaws.hex_round_trip RefLaws.sk_round_trip RefLaws.pk_round_trip
              RefLaws.sig_round_trip RefLaws.VerifySig_checks RefLaws.Sign_verifies
              RefBatch.Aggregate_nil_iff seed1 seed2 MainRun.pubPoint Hk)
    as (agg & _ & E).
  rewrite E. split; reflexivity.
Defined.

(** The run of the second program on the two seeds: no panic, and the last
    line. *)
Lemma main_related_batch_is_accepted_witness :
  snd (main_related seed1 seed2) = None /\
  nth 3 (fst (main_related seed1 seed2)) [] =
  [VString "Verification result for multiple sig:"; VBool true].
Proof.
  assert (Hk : Ref.RandKey seed1 = inl MainRun.pubPoint) by (vm_compute; reflexivity).
  destruct (@main_related_batch_is_accepted Ref.hexutil Ref.bls
              RefLaws.sig_round_trip RefLaws.VerifySig_checks RefLaws.Sign_verifies
              RefBatch.Aggregate_nil_iff RefBatch.Batch_complete
              seed1 seed2 MainRun.pubPoint Hk)
    as (agg & _ & E).
  rewrite E. split; reflexivity.
Defined.

End FurtherInstances.
